(** * FinBot front-end core: request client and field validation

    A shallow embedding of [finbot/static/js/common/utils.js],
    [finbot/static/js/common/api.js] and the auth-form submit handler of the
    web application, with the properties their specification states.

    JavaScript strings are modelled by [string]: a character is a code unit
    below 256.  The header objects are [gmap string _].  The objects the
    code fills by assignment under names taken from the page (the [errors]
    object of [validateForm], the [data] object of [submitForm]) follow the
    assignment [object[name] = value] as JavaScript has it: the name
    [__proto__] reaches the accessor inherited from [Object.prototype] and
    creates no own property. *)

From Stdlib Require Import ZArith Ascii String List Bool Lia.
From stdpp Require Import base option list gmap strings fin_maps pretty.

Local Open Scope string_scope.
Set Warnings "-register-all".
Set Default Proof Using "Type".

(** ** JavaScript string primitives *)

Module JsString.

Definition code (c : ascii) : nat := nat_of_ascii c.

(** [\d]: the ten ASCII digits. *)
Definition is_digit (c : ascii) : bool :=
  (48 <=? code c)%nat && (code c <=? 57)%nat.

(** [[a-z]] and [[A-Z]]. *)
Definition is_lower (c : ascii) : bool :=
  (97 <=? code c)%nat && (code c <=? 122)%nat.

Definition is_upper (c : ascii) : bool :=
  (65 <=? code c)%nat && (code c <=? 90)%nat.

(** White space as [\s] and [String.prototype.trim] see it, among the code
    units below 256: TAB, LF, VT, FF, CR, SPACE and NO-BREAK SPACE. *)
Definition is_space (c : ascii) : bool :=
  ((9 <=? code c)%nat && (code c <=? 13)%nat)
  || (code c =? 32)%nat || (code c =? 160)%nat.

Fixpoint chars (s : string) : list ascii :=
  match s with
  | EmptyString => []
  | String c s' => c :: chars s'
  end.

Fixpoint of_chars (l : list ascii) : string :=
  match l with
  | [] => EmptyString
  | c :: l' => String c (of_chars l')
  end.

(** [s.replace(/C/g, '')] for a one-character class [C]: every character
    of the class is dropped; [keep] is the complement of the class. *)
Fixpoint remove_all (keep : ascii -> bool) (s : string) : string :=
  match s with
  | EmptyString => EmptyString
  | String c s' =>
      if keep c then String c (remove_all keep s') else remove_all keep s'
  end.

(** [s.replace(/\D/g, '')]. *)
Definition strip_non_digits (s : string) : string := remove_all is_digit s.

(** [s.slice(i, j)] and [s.slice(i)] for indices [0 <= i <= j]. *)
Definition slice (s : string) (i j : nat) : string := substring i (j - i) s.
Definition slice_from (s : string) (i : nat) : string :=
  substring i (String.length s - i) s.

Fixpoint drop_space (s : string) : string :=
  match s with
  | EmptyString => EmptyString
  | String c s' => if is_space c then drop_space s' else s
  end.

(** [s.trim()]. *)
Definition trim (s : string) : string :=
  String.rev (drop_space (String.rev (drop_space s))).

Fixpoint starts_with (p s : string) : bool :=
  match p, s with
  | EmptyString, _ => true
  | String a p', String b s' => Ascii.eqb a b && starts_with p' s'
  | String _ _, EmptyString => false
  end.

(** [s.includes(p)]. *)
Fixpoint includes (s p : string) : bool :=
  starts_with p s
  || match s with
     | EmptyString => false
     | String _ s' => includes s' p
     end.

(** [s.split(sep)] for a one-character separator: never empty. *)
Fixpoint split (sep : ascii) (s : string) : list string :=
  match s with
  | EmptyString => [EmptyString]
  | String c s' =>
      if Ascii.eqb c sep then EmptyString :: split sep s'
      else match split sep s' with
           | [] => [String c EmptyString]
           | piece :: rest => String c piece :: rest
           end
  end.

Definition to_upper_char (c : ascii) : ascii :=
  if is_lower c then ascii_of_nat (code c - 32) else c.

(** [s.toUpperCase()] on the ASCII letters. *)
Fixpoint toUpperCase (s : string) : string :=
  match s with
  | EmptyString => EmptyString
  | String c s' => String (to_upper_char c) (toUpperCase s')
  end.

(** [a.push(x)] and [a.push(...xs)] on an array of strings. *)
Definition push (a : list string) (x : string) : list string :=
  (a ++ [x])%list.
Definition push_all (a xs : list string) : list string := (a ++ xs)%list.

(** Truthiness of a string value: the empty string is falsy. *)
Definition truthy (s : string) : bool :=
  match s with EmptyString => false | String _ _ => true end.

(** [a || b] on strings. *)
Definition or_else (a b : string) : string := if truthy a then a else b.

(** The decimal numeral of an integer, as a template literal prints it. *)
Definition of_Z (z : Z) : string := pretty z.

(** [s.endsWith(p)]. *)
Definition ends_with (s p : string) : bool :=
  starts_with (String.rev p) (String.rev s).

(** [s.split(sep)] for a separator of one character or more; [skip]
    counts the characters of a separator just found that are still to be
    passed over. *)
Fixpoint split_on_go (sep : string) (skip : nat) (s : string)
  : list string :=
  match s with
  | EmptyString => [EmptyString]
  | String c s' =>
      match skip with
      | S k => split_on_go sep k s'
      | O =>
          if starts_with sep s
          then EmptyString :: split_on_go sep (String.length sep - 1) s'
          else match split_on_go sep 0 s' with
               | [] => [String c EmptyString]
               | piece :: rest => String c piece :: rest
               end
      end
  end.

Definition split_on (sep s : string) : list string := split_on_go sep 0 s.

End JsString.

(** ** Regular expressions

    The patterns of the source are built from character classes, sequence,
    alternative and iteration; [test] is decided with Brzozowski
    derivatives. *)

Module Regex.

Inductive regex : Type :=
| Void
| Eps
| Class (p : ascii -> bool)
| Seq (r1 r2 : regex)
| Alt (r1 r2 : regex)
| Star (r : regex).

Definition Opt (r : regex) : regex := Alt r Eps.
Definition Plus (r : regex) : regex := Seq r (Star r).
Definition Char (a : ascii) : regex := Class (Ascii.eqb a).
Definition Any : regex := Class (fun _ => true).

(** [r{n}]. *)
Fixpoint Repeat (n : nat) (r : regex) : regex :=
  match n with
  | O => Eps
  | S n' => Seq r (Repeat n' r)
  end.

Fixpoint nullable (r : regex) : bool :=
  match r with
  | Void => false
  | Eps => true
  | Class _ => false
  | Seq r1 r2 => nullable r1 && nullable r2
  | Alt r1 r2 => nullable r1 || nullable r2
  | Star _ => true
  end.

Fixpoint deriv (c : ascii) (r : regex) : regex :=
  match r with
  | Void => Void
  | Eps => Void
  | Class p => if p c then Eps else Void
  | Seq r1 r2 =>
      if nullable r1 then Alt (Seq (deriv c r1) r2) (deriv c r2)
      else Seq (deriv c r1) r2
  | Alt r1 r2 => Alt (deriv c r1) (deriv c r2)
  | Star r1 => Seq (deriv c r1) (Star r1)
  end.

(** [/^r$/.test(s)]: the whole of [s] is a word of [r]. *)
Fixpoint test_whole (r : regex) (s : string) {struct s} : bool :=
  match s with
  | EmptyString => nullable r
  | String c s' => test_whole (deriv c r) s'
  end.

(** [/r/.test(s)] without anchors: some substring of [s] is a word of
    [r]. *)
Definition test (r : regex) (s : string) : bool :=
  test_whole (Seq (Star Any) (Seq r (Star Any))) s.

(** The words of a pattern. *)
Inductive Lang : regex -> string -> Prop :=
| LEps : Lang Eps EmptyString
| LClass p c : p c = true -> Lang (Class p) (String c EmptyString)
| LSeq r1 r2 s1 s2 : Lang r1 s1 -> Lang r2 s2 -> Lang (Seq r1 r2) (s1 ++ s2)
| LAltL r1 r2 s : Lang r1 s -> Lang (Alt r1 r2) s
| LAltR r1 r2 s : Lang r2 s -> Lang (Alt r1 r2) s
| LStar0 r : Lang (Star r) EmptyString
| LStarS r s1 s2 : Lang r s1 -> Lang (Star r) s2 -> Lang (Star r) (s1 ++ s2).

End Regex.

(** ** JavaScript objects filled by assignment *)

Module JsObject.
Import JsString.

(** The own properties of an object are a list, each name once, in the
    order of creation.  Defining the property [name]: one that exists
    keeps its place and takes the value, a new one comes last. *)
Fixpoint define_property {V : Type} (name : string) (value : V)
  (props : list (string * V)) : list (string * V) :=
  match props with
  | [] => [(name, value)]
  | (k, old) :: rest =>
      if String.eqb k name then (k, value) :: rest
      else (k, old) :: define_property name value rest
  end.

(** [object[name] = value] on an object created by [{}].  The name
    [__proto__] reaches the accessor inherited from [Object.prototype],
    which takes an object as the new prototype and ignores another
    value: no own property is created.  Every other name [Object.prototype]
    or an array prototype holds is a writable data property, over which
    the assignment defines an own property. *)
Definition set_property {V : Type} (name : string) (value : V)
  (props : list (string * V)) : list (string * V) :=
  if String.eqb name "__proto__" then props
  else define_property name value props.

(** The array index a property name denotes, if it is one: the name is
    the decimal numeral, without leading zero, of an integer below
    [2^32 - 1]. *)
Definition array_index (name : string) : option N :=
  match name with
  | EmptyString => None
  | String c rest =>
      if forallb is_digit (chars name)
         && (negb (Ascii.eqb c "0") || (String.length name =? 1)%nat)
      then
        let n :=
          fold_left (fun acc d => (acc * 10 + N.of_nat (code d - 48))%N)
            (chars name) 0%N in
        if (n <? 4294967295)%N then Some n else None
      else None
  end.

Fixpoint insert_indexed {V : Type} (i : N) (entry : string * V)
  (sorted : list (N * (string * V))) : list (N * (string * V)) :=
  match sorted with
  | [] => [(i, entry)]
  | (j, other) :: rest =>
      if (i <? j)%N then (i, entry) :: sorted
      else (j, other) :: insert_indexed i entry rest
  end.

(** The order in which [Object.keys] and [Object.entries] list the own
    properties: the array indices in ascending order, then the other
    names in the order of creation. *)
Definition own_property_order {V : Type} (props : list (string * V))
  : list (string * V) :=
  let indexed :=
    fold_left
      (fun sorted entry =>
         match array_index (fst entry) with
         | Some i => insert_indexed i entry sorted
         | None => sorted
         end)
      props [] in
  let named :=
    List.filter
      (fun entry =>
         match array_index (fst entry) with
         | Some _ => false
         | None => true
         end)
      props in
  (map snd indexed ++ named)%list.

End JsObject.

(** ** The pieces of the page the code reads *)

Module Dom.
Import JsString.

(** A control matched by [form.querySelectorAll('input, select, textarea')].
    [field_required] is [hasAttribute('required')]; [field_minLength] and
    [field_maxLength] are the reflected properties ([None] where the
    element has none, as on [select]; [-1] when the attribute is absent);
    [field_values] are the text values the control contributes to the form
    data set (none when it is disabled or unchecked).  File inputs, whose
    entries are not strings, are outside the model. *)
Record Field : Type := mkField {
  field_name : string;
  field_type : string;
  field_required : bool;
  field_minLength : option Z;
  field_maxLength : option Z;
  field_values : list string
}.

(** A form: its controls in tree order, its [method] and [action]
    properties, and whether [querySelector('button[type="submit"]')] finds
    a button in it. *)
Record Form : Type := mkForm {
  form_fields : list Field;
  form_method : string;
  form_action : string;
  form_submit_button : bool
}.

(** A control without a name contributes no entry. *)
Definition field_entries (f : Field) : list (string * string) :=
  if truthy (field_name f)
  then map (fun v => (field_name f, v)) (field_values f)
  else [].

(** [new FormData(form)]: the entry list, in tree order. *)
Definition FormData (form : Form) : list (string * string) :=
  flat_map field_entries (form_fields form).

(** [formData.get(name)]: the first entry of that name, or [null]. *)
Fixpoint FormData_get (formData : list (string * string)) (name : string)
  : option string :=
  match formData with
  | [] => None
  | (k, v) :: rest =>
      if String.eqb k name then Some v else FormData_get rest name
  end.

(** The document as [getCSRFToken] reads it: the first
    [meta[name=csrf-token]] element if any, with its [content] attribute
    if any, and [document.cookie]. *)
Record Document : Type := mkDocument {
  meta_csrf_token : option (option string);
  cookie : string
}.

(** An element as [showLoading] uses it: the tokens of its [classList],
    its [textContent] and its [disabled] property. *)
Record Element : Type := mkElement {
  classList : list string;
  textContent : string;
  disabled : bool
}.

(** [classList.add(token)]: a token already present is not added again. *)
Definition classList_add (token : string) (tokens : list string)
  : list string :=
  if existsb (String.eqb token) tokens then tokens
  else (tokens ++ [token])%list.

(** [classList.remove(token)]. *)
Definition classList_remove (token : string) (tokens : list string)
  : list string :=
  List.filter (fun t => negb (String.eqb token t)) tokens.

End Dom.

(** ** utils.js: validators and formatters *)

Module Utils.
Import JsString Regex.

(** [{ isValid, message }]. *)
Record ValidationResult : Type := mkValidation {
  isValid : bool;
  message : string
}.

(** [{ isValid, score, feedback }]. *)
Record PasswordResult : Type := mkPassword {
  pw_isValid : bool;
  pw_score : Z;
  pw_feedback : list string
}.

Definition not_space_or_at (c : ascii) : bool :=
  negb (is_space c) && negb (Ascii.eqb c "@").

(** [/^[^\s@]+@[^\s@]+\.[^\s@]+$/]. *)
Definition emailRegex : regex :=
  Seq (Plus (Class not_space_or_at))
    (Seq (Char "@")
       (Seq (Plus (Class not_space_or_at))
          (Seq (Char ".") (Plus (Class not_space_or_at))))).

Definition isValidEmail (email : string) : bool :=
  test_whole emailRegex email.

(** The characters of the punctuation class of the fifth password check:
    [! @ # $ % ^ & * ( ) , . ?], the double quote (written by its code
    34) and [: { } | < >]. *)
Definition symbol_chars : list ascii :=
  (chars "!@#$%^&*(),.?" ++ ["034"%char] ++ chars ":{}|<>")%list.

Definition is_symbol (c : ascii) : bool :=
  existsb (Ascii.eqb c) symbol_chars.

(** [result.feedback.push(msg)]. *)
Definition push_feedback (msg : string) (r : PasswordResult) : PasswordResult :=
  mkPassword (pw_isValid r) (pw_score r) (push (pw_feedback r) msg).

(** [result.score += 1]. *)
Definition add_point (r : PasswordResult) : PasswordResult :=
  mkPassword (pw_isValid r) (pw_score r + 1) (pw_feedback r).

Definition msg_length : string :=
  "Password must be at least 8 characters long".
Definition msg_lower : string :=
  "Password must contain at least one lowercase letter".
Definition msg_upper : string :=
  "Password must contain at least one uppercase letter".
Definition msg_digit : string :=
  "Password must contain at least one number".
Definition msg_symbol : string :=
  "Password should contain at least one special character".

(** The result object is threaded through the five checks in the order of
    the source. *)
Definition validatePassword (password : string) : PasswordResult :=
  let result := mkPassword false 0 [] in
  let result :=
    if (String.length password <? 8)%nat
    then push_feedback msg_length result else add_point result in
  let result :=
    if negb (test (Class is_lower) password)
    then push_feedback msg_lower result else add_point result in
  let result :=
    if negb (test (Class is_upper) password)
    then push_feedback msg_upper result else add_point result in
  let result :=
    if negb (test (Class is_digit) password)
    then push_feedback msg_digit result else add_point result in
  let result :=
    if negb (test (Class is_symbol) password)
    then push_feedback msg_symbol result else add_point result in
  mkPassword (4 <=? pw_score result)%Z (pw_score result) (pw_feedback result).

(** [/^\d{2}-?\d{7}$/]. *)
Definition tinRegex : regex :=
  Seq (Repeat 2 (Class is_digit))
    (Seq (Opt (Char "-")) (Repeat 7 (Class is_digit))).

Definition validateTIN (tin : string) : ValidationResult :=
  if negb (truthy tin) then mkValidation false "TIN/EIN is required"
  else
    let cleanTIN := strip_non_digits tin in
    if negb (String.length cleanTIN =? 9)%nat
    then mkValidation false "TIN/EIN must be 9 digits"
    else if negb (test_whole tinRegex tin)
    then mkValidation false
           "Please enter a valid TIN/EIN format (XX-XXXXXXX or XXXXXXXXX)"
    else mkValidation true "".

Definition validateBankAccount (accountNumber : string) : ValidationResult :=
  if negb (truthy accountNumber)
  then mkValidation false "Bank account number is required"
  else
    let cleanAccount := strip_non_digits accountNumber in
    if (String.length cleanAccount <? 8)%nat
       || (17 <? String.length cleanAccount)%nat
    then mkValidation false "Bank account number should be 8-17 digits"
    else if negb (test_whole (Plus (Class is_digit)) cleanAccount)
    then mkValidation false "Bank account number should contain only digits"
    else mkValidation true "".

Definition validateRoutingNumber (routingNumber : string) : ValidationResult :=
  if negb (truthy routingNumber)
  then mkValidation false "Routing number is required"
  else
    let cleanRouting := strip_non_digits routingNumber in
    if negb (String.length cleanRouting =? 9)%nat
    then mkValidation false "Routing number must be exactly 9 digits"
    else mkValidation true "".

Definition formatTIN (tin : string) : string :=
  let cleanTIN := strip_non_digits tin in
  if (String.length cleanTIN =? 9)%nat
  then slice cleanTIN 0 2 ++ "-" ++ slice_from cleanTIN 2
  else tin.

Definition formatRoutingNumber (routingNumber : string) : string :=
  let cleanRouting := strip_non_digits routingNumber in
  if (String.length cleanRouting =? 9)%nat
  then slice cleanRouting 0 3 ++ " " ++ slice cleanRouting 3 6 ++ " "
       ++ slice_from cleanRouting 6
  else routingNumber.

(** [{ isValid, errors }]. *)
Record FormReport : Type := mkFormReport {
  form_isValid : bool;
  form_errors : list (string * list string)
}.

(** Truthiness of [formData.get(...)]: [null] and the empty string are
    falsy. *)
Definition value_truthy (value : option string) : bool :=
  match value with
  | None => false
  | Some v => truthy v
  end.

(** Truthiness of a reflected numeric property. *)
Definition bound_truthy (n : option Z) : bool :=
  match n with
  | None => false
  | Some z => negb (z =? 0)%Z
  end.

(** The body of the [forEach] callback up to the final test: the errors
    of one field, in the order they are pushed. *)
Definition field_errors (formData : list (string * string)) (field : Dom.Field)
  : list string :=
  let value := Dom.FormData_get formData (Dom.field_name field) in
  let fieldErrors : list string := [] in
  let fieldErrors :=
    if Dom.field_required field
       && (negb (value_truthy value)
           || match value with
              | Some v => String.eqb (trim v) ""
              | None => false
              end)
    then push fieldErrors (Dom.field_name field ++ " is required")
    else fieldErrors in
  let fieldErrors :=
    match value with
    | Some v =>
        if String.eqb (Dom.field_type field) "email" && truthy v
           && negb (isValidEmail v)
        then push fieldErrors "Please enter a valid email address"
        else fieldErrors
    | None => fieldErrors
    end in
  let fieldErrors :=
    match value with
    | Some v =>
        if String.eqb (Dom.field_type field) "password" && truthy v
        then
          let passwordValidation := validatePassword v in
          if negb (pw_isValid passwordValidation)
          then push_all fieldErrors (pw_feedback passwordValidation)
          else fieldErrors
        else fieldErrors
    | None => fieldErrors
    end in
  let fieldErrors :=
    match Dom.field_minLength field, value with
    | Some minLength, Some v =>
        if bound_truthy (Some minLength) && (0 <? minLength)%Z && truthy v
           && (Z.of_nat (String.length v) <? minLength)%Z
        then push fieldErrors
               (Dom.field_name field ++ " must be at least "
                ++ of_Z minLength ++ " characters")
        else fieldErrors
    | _, _ => fieldErrors
    end in
  let fieldErrors :=
    match Dom.field_maxLength field, value with
    | Some maxLength, Some v =>
        if bound_truthy (Some maxLength) && (0 <? maxLength)%Z && truthy v
           && (maxLength <? Z.of_nat (String.length v))%Z
        then push fieldErrors
               (Dom.field_name field ++ " must be no more than "
                ++ of_Z maxLength ++ " characters")
        else fieldErrors
    | _, _ => fieldErrors
    end in
  fieldErrors.

(** One turn of [fields.forEach]: [errors[field.name] = fieldErrors] when
    the field has errors.  [errors] holds the own properties of the
    object; for a field named [__proto__] the assignment makes the array
    the prototype of the object and leaves its own properties as they
    are. *)
Definition validate_field (formData : list (string * string))
  (errors : list (string * list string)) (field : Dom.Field)
  : list (string * list string) :=
  let fieldErrors := field_errors formData field in
  if (0 <? List.length fieldErrors)%nat
  then JsObject.set_property (Dom.field_name field) fieldErrors errors
  else errors.

(** [Object.keys(errors)] lists the own properties. *)
Definition validateForm (form : Dom.Form) : FormReport :=
  let errors : list (string * list string) := [] in
  let formData := Dom.FormData form in
  let fields := Dom.form_fields form in
  let errors := fold_left (validate_field formData) fields errors in
  mkFormReport (List.length errors =? 0)%nat errors.

(** *** Timers

    The function [debounce] returns keeps its [timeout] variable; the
    host keeps the timers that are pending, each with the arguments its
    [later] closure has captured.  A run is a sequence of events: a call
    of the returned function, or the host firing the oldest pending
    timer.  Timer identifiers are positive, hence truthy. *)
Inductive TimerEvent (A : Type) : Type :=
| Call (args : A)
| Fire.
Arguments Call {A} args.
Arguments Fire {A}.

Record Debounced (A : Type) : Type := mkDebounced {
  db_timeout : option nat;
  db_timers : list (nat * A);
  db_next : nat
}.
Arguments mkDebounced {A} _ _ _.
Arguments db_timeout {A} _.
Arguments db_timers {A} _.
Arguments db_next {A} _.

(** [debounce(func, wait, immediate)], before any call. *)
Definition debounce {A : Type} : Debounced A := mkDebounced None [] 1.

(** [clearTimeout(id)]. *)
Definition clearTimeout {A : Type} (id : option nat) (timers : list (nat * A))
  : list (nat * A) :=
  match id with
  | Some i => List.filter (fun t => negb (Nat.eqb (fst t) i)) timers
  | None => timers
  end.

(** One event of a debounced function: the next state and the calls of
    [func] it makes. *)
Definition debounce_step {A : Type} (immediate : bool) (st : Debounced A)
  (ev : TimerEvent A) : Debounced A * list A :=
  match ev with
  | Call args =>
      let callNow :=
        immediate
        && match db_timeout st with Some _ => false | None => true end in
      let timers := clearTimeout (db_timeout st) (db_timers st) in
      let id := db_next st in
      let timers := (timers ++ [(id, args)])%list in
      (mkDebounced (Some id) timers (S id),
       if callNow then [args] else [])
  | Fire =>
      match db_timers st with
      | [] => (st, [])
      | (_, args) :: rest =>
          (mkDebounced None rest (db_next st),
           if negb immediate then [args] else [])
      end
  end.

(** The calls of [func] along a sequence of events, and the final
    state. *)
Fixpoint debounce_run {A : Type} (immediate : bool) (st : Debounced A)
  (events : list (TimerEvent A)) : Debounced A * list A :=
  match events with
  | [] => (st, [])
  | ev :: rest =>
      let (st1, out1) := debounce_step immediate st ev in
      let (st2, out2) := debounce_run immediate st1 rest in
      (st2, (out1 ++ out2)%list)
  end.

(** [throttle(func, limit)]: the [inThrottle] variable and the number of
    pending timers that reset it. *)
Record Throttled : Type := mkThrottled {
  inThrottle : bool;
  th_timers : nat
}.

Definition throttle : Throttled := mkThrottled false 0.

Definition throttle_step {A : Type} (st : Throttled) (ev : TimerEvent A)
  : Throttled * list A :=
  match ev with
  | Call args =>
      if negb (inThrottle st)
      then (mkThrottled true (S (th_timers st)), [args])
      else (st, [])
  | Fire =>
      match th_timers st with
      | O => (st, [])
      | S n => (mkThrottled false n, [])
      end
  end.

Fixpoint throttle_run {A : Type} (st : Throttled)
  (events : list (TimerEvent A)) : Throttled * list A :=
  match events with
  | [] => (st, [])
  | ev :: rest =>
      let (st1, out1) := throttle_step st ev in
      let (st2, out2) := throttle_run st1 rest in
      (st2, (out1 ++ out2)%list)
  end.

(** *** Relative time *)




(** *** Device detection, on [window.innerWidth] *)

Definition isMobile (innerWidth : Z) : bool := (innerWidth <=? 768)%Z.
Definition isTablet (innerWidth : Z) : bool :=
  (768 <? innerWidth)%Z && (innerWidth <=? 1024)%Z.
Definition isDesktop (innerWidth : Z) : bool := (1024 <? innerWidth)%Z.

(** *** Loading state *)

(** [showLoading(element, text)]: the element as it is left, and the
    [originalText] the returned function has captured. *)
Definition showLoading (element : Dom.Element) (text : string)
  : Dom.Element * string :=
  let classes := Dom.classList_add "loading" (Dom.classList element) in
  let originalText := Dom.textContent element in
  (Dom.mkElement classes text true, originalText).

(** The function [showLoading] returns, applied to the element as it is
    then. *)
Definition hideLoading (originalText : string) (element : Dom.Element)
  : Dom.Element :=
  Dom.mkElement (Dom.classList_remove "loading" (Dom.classList element))
    originalText false.

End Utils.

(** ** api.js: the request client *)

Module Api.
Import JsString.

(** What the host provides and the code relies on: the numbers of decoded
    JSON bodies, with their truthiness and their string form, and
    [decodeURIComponent] ([None] when it throws [URIError]). *)
Class Host : Type := {
  Number : Type;
  number_truthy : Number -> bool;
  number_to_string : Number -> string;
  decodeURIComponent : string -> option string
}.

Section Client.
Context {host : Host}.

(** A value decoded by [response.json()] or [response.text()].  The
    properties of [JObject] are the object's own properties; where a key
    occurs twice the later one is the property, as [JSON.parse] has
    it. *)
Inductive JsValue : Type :=
| JNull
| JBool (b : bool)
| JNumber (n : Number)
| JString (s : string)
| JArray (items : list JsValue)
| JObject (props : list (string * JsValue)).

(** An exception other than [APIError], as [fetch], the decoding of a
    body or a failed read throw them: an object with its [message]
    property, if it has one. *)
Record JsError : Type := mkJsError {
  js_message : option string
}.

(** [class APIError extends Error]. *)
Record APIError : Type := mkAPIError {
  error_message : string;
  error_status : Z;
  error_data : JsValue
}.

Definition isAuthError (this : APIError) : bool :=
  (error_status this =? 401)%Z || (error_status this =? 403)%Z.

Definition isValidationError (this : APIError) : bool :=
  (error_status this =? 422)%Z || (error_status this =? 400)%Z.

Definition isServerError (this : APIError) : bool :=
  (500 <=? error_status this)%Z.

(** What a [throw] inside [request] carries. *)
Inductive Thrown : Type :=
| ThrownAPIError (e : APIError)
| ThrownError (e : JsError).

Definition TypeError (msg : string) : JsError := mkJsError (Some msg).
Definition URIError (msg : string) : JsError := mkJsError (Some msg).

(** Truthiness of a decoded value. *)
Definition to_boolean (v : JsValue) : bool :=
  match v with
  | JNull => false
  | JBool b => b
  | JNumber n => number_truthy n
  | JString s => truthy s
  | JArray _ => true
  | JObject _ => true
  end.

(** The own property [key] of a decoded object. *)
Fixpoint own_prop (key : string) (props : list (string * JsValue))
  : option JsValue :=
  match props with
  | [] => None
  | (k, v) :: rest =>
      match own_prop key rest with
      | Some later => Some later
      | None => if String.eqb k key then Some v else None
      end
  end.

(** [v.key] for a key that no prototype defines ([message], [errors],
    [redirect]): [inl] is the [TypeError] of reading a property of
    [null], [inr None] is [undefined]. *)
Definition get_prop (v : JsValue) (key : string)
  : JsError + option JsValue :=
  match v with
  | JNull =>
      inl (TypeError ("Cannot read properties of null (reading '"
                      ++ key ++ "')"))
  | JObject props => inr (own_prop key props)
  | _ => inr None
  end.

(** [v?.key]. *)
Definition get_prop_optional (v : JsValue) (key : string)
  : option JsValue :=
  match v with
  | JObject props => own_prop key props
  | _ => None
  end.

Fixpoint join (sep : string) (pieces : list string) : string :=
  match pieces with
  | [] => ""
  | [p] => p
  | p :: rest => p ++ sep ++ join sep rest
  end.

Fixpoint sequence (l : list (option string)) : option (list string) :=
  match l with
  | [] => Some []
  | None :: _ => None
  | Some x :: rest =>
      match sequence rest with
      | Some xs => Some (x :: xs)
      | None => None
      end
  end.

(** [String(v)], as the [Error] constructor converts its argument;
    [None] is the [TypeError] of an object that cannot be converted (a
    decoded object whose own [toString] property hides the inherited
    method).  An array joins its elements with commas, [null] elements
    printing as nothing. *)
Fixpoint ToString (v : JsValue) : option string :=
  match v with
  | JNull => Some "null"
  | JBool true => Some "true"
  | JBool false => Some "false"
  | JNumber n => Some (number_to_string n)
  | JString s => Some s
  | JArray items =>
      let element (x : JsValue) : option string :=
        match x with
        | JNull => Some ""
        | _ => ToString x
        end in
      match sequence (map element items) with
      | Some pieces => Some (join "," pieces)
      | None => None
      end
  | JObject props =>
      match own_prop "toString" props with
      | Some _ => None
      | None => Some "[object Object]"
      end
  end.

(** [fetch]'s [Response], as [request] reads it.  [resp_headers] is
    keyed by lower-case header name; [resp_json] and [resp_text] are what
    [response.json()] and [response.text()] settle with. *)
Record Response : Type := mkResponse {
  resp_status : Z;
  resp_statusText : string;
  resp_headers : gmap string string;
  resp_json : JsError + JsValue;
  resp_text : JsError + string
}.

(** [response.ok]: the status is in the range 200-299. *)
Definition resp_ok (r : Response) : bool :=
  (200 <=? resp_status r)%Z && (resp_status r <=? 299)%Z.

(** The request body: a text, a [FormData] object, or the text
    [JSON.stringify(data)] of a flat object, kept symbolic. *)
Inductive Body : Type :=
| BodyText (s : string)
| BodyFormData (entries : list (string * string))
| BodyJson (data : gmap string string).

(** The [options] argument of [request], with the properties the
    callers of the repository pass. *)
Record RequestOptions : Type := mkOptions {
  opt_method : option string;
  opt_headers : option (gmap string string);
  opt_body : option Body
}.

(** The [config] object handed to [fetch]; [cfg_headers] is the
    [headers] object, its keys as written. *)
Record FetchConfig : Type := mkConfig {
  cfg_credentials : string;
  cfg_method : option string;
  cfg_body : option Body;
  cfg_headers : gmap string string
}.

(** What a successful [request] returns. *)
Record Success : Type := mkSuccess {
  success_data : JsValue;
  success_status : Z;
  success_headers : gmap string string
}.

Record FinBotAPI : Type := mkFinBotAPI {
  baseURL : string;
  defaultHeaders : gmap string string
}.

(** [new FinBotAPI(baseURL)]. *)
Definition new_FinBotAPI (baseURL : string) : FinBotAPI :=
  mkFinBotAPI baseURL {["Content-Type" := "application/json"]}.

(** The cookie loop of [getCSRFToken]; [value] is [undefined] for a
    cookie without [=], and [decodeURIComponent(undefined)] decodes the
    text [undefined]. *)
Fixpoint csrf_from_cookies (cookies : list string)
  : JsError + option string :=
  match cookies with
  | [] => inr None
  | cookie :: rest =>
      match split "=" (trim cookie) with
      | name :: more =>
          if String.eqb name "csrf_token"
          then
            let value := default "undefined" (head more) in
            match decodeURIComponent value with
            | Some token => inr (Some token)
            | None => inl (URIError "URI malformed")
            end
          else csrf_from_cookies rest
      | [] => csrf_from_cookies rest
      end
  end.

Definition getCSRFToken (document : Dom.Document)
  : JsError + option string :=
  match Dom.meta_csrf_token document with
  | Some content => inr content
  | None => csrf_from_cookies (split ";" (Dom.cookie document))
  end.

(** [{ ...a, ...b }]: the properties of [b] win. *)
Definition spread (a b : gmap string string) : gmap string string := b ∪ a.

(** Lines 42-54 of [request]: the merged headers, with the CSRF header
    of a request whose method is set and is not [GET]. *)
Definition request_headers (this : FinBotAPI) (document : Dom.Document)
  (options : RequestOptions) : JsError + gmap string string :=
  let headers :=
    spread (defaultHeaders this) (default ∅ (opt_headers options)) in
  match opt_method options with
  | Some method =>
      if truthy method && negb (String.eqb method "GET")
      then
        match getCSRFToken document with
        | inl e => inl e
        | inr (Some csrfToken) =>
            if truthy csrfToken
            then inr (<["X-CSRF-Token" := csrfToken]> headers)
            else inr headers
        | inr None => inr headers
        end
      else inr headers
  | None => inr headers
  end.

(** [{ credentials: 'same-origin', ...options, headers }]. *)
Definition request_config (options : RequestOptions)
  (headers : gmap string string) : FetchConfig :=
  mkConfig "same-origin" (opt_method options) (opt_body options) headers.

Definition generic_message (response : Response) : string :=
  "HTTP " ++ of_Z (resp_status response) ++ ": "
  ++ resp_statusText response.

Definition lift {A : Type} (r : JsError + A) : Thrown + A :=
  match r with
  | inl e => inl (ThrownError e)
  | inr a => inr a
  end.

(** [new APIError(message, status, data)] for a [message] that is a
    decoded value: the [Error] constructor converts it to a string. *)
Definition new_APIError (message : JsValue) (status : Z) (data : JsValue)
  : JsError + APIError :=
  match ToString message with
  | Some text => inr (mkAPIError text status data)
  | None => inl (TypeError "Cannot convert object to primitive value")
  end.

(** A text body is a string value. *)
Definition text_value (r : JsError + string) : JsError + JsValue :=
  match r with
  | inl e => inl e
  | inr s => inr (JString s)
  end.

(** Lines 66-73: the body is decoded as JSON when the declared media
    type mentions [application/json], as text otherwise. *)
Definition decode_body (response : Response) : JsError + JsValue :=
  let contentType := resp_headers response !! "content-type" in
  match contentType with
  | Some ct =>
      if truthy ct && includes ct "application/json"
      then resp_json response
      else text_value (resp_text response)
  | None => text_value (resp_text response)
  end.

(** [data.message || `HTTP ${response.status}: ${response.statusText}`],
    given the value of [data.message]. *)
Definition message_or_generic (member : option JsValue)
  (response : Response) : JsValue :=
  match member with
  | Some m =>
      if to_boolean m then m else JString (generic_message response)
  | None => JString (generic_message response)
  end.

(** The body of the [try] block once [fetch] has settled with
    [fetched]. *)
Definition request_try (fetched : JsError + Response) : Thrown + Success :=
  match lift fetched with
  | inl t => inl t
  | inr response =>
      match lift (decode_body response) with
      | inl t => inl t
      | inr data =>
          if negb (resp_ok response)
          then
            match get_prop data "message" with
            | inl e => inl (ThrownError e)
            | inr member =>
                let message := message_or_generic member response in
                match new_APIError message (resp_status response) data with
                | inl e => inl (ThrownError e)
                | inr err => inl (ThrownAPIError err)
                end
            end
          else
            inr (mkSuccess data (resp_status response)
                   (resp_headers response))
      end
  end.

(** How the promise of [request] settles. *)
Inductive Settlement : Type :=
| Resolved (result : Success)
| Rejected (error : APIError).

(** The [catch] clause. *)
Definition request_catch (r : Thrown + Success) : Settlement :=
  match r with
  | inr result => Resolved result
  | inl (ThrownAPIError error) => Rejected error
  | inl (ThrownError error) =>
      Rejected (mkAPIError
                  (or_else (default "" (js_message error))
                     "Network error occurred")
                  0 JNull)
  end.

(** A run of [request]: either [getCSRFToken] throws, outside the [try]
    block, so that nothing is sent and the promise rejects with that
    exception, or [fetch] is called once, with [url] and [config], and
    the promise settles as the [try] statement decides. *)
Inductive RequestRun : Type :=
| Raised (e : JsError)
| Sent (url : string) (config : FetchConfig) (outcome : Settlement).

(** The transport: what [fetch(url, config)] settles with. *)
Definition Transport : Type := string -> FetchConfig -> JsError + Response.

Definition request (this : FinBotAPI) (document : Dom.Document)
  (fetch : Transport) (endpoint : string) (options : RequestOptions)
  : RequestRun :=
  let url := baseURL this ++ endpoint in
  match request_headers this document options with
  | inl e => Raised e
  | inr headers =>
      let config := request_config options headers in
      Sent url config (request_catch (request_try (fetch url config)))
  end.

(** The headers of the request a run has sent, if it has sent one. *)
Definition sent_headers (run : RequestRun) : option (gmap string string) :=
  match run with
  | Raised _ => None
  | Sent _ config _ => Some (cfg_headers config)
  end.

Definition upload (this : FinBotAPI) (document : Dom.Document)
  (fetch : Transport) (endpoint : string)
  (formData : list (string * string)) : RequestRun :=
  let headers := spread ∅ (defaultHeaders this) in
  let headers := delete "Content-Type" headers in
  request this document fetch endpoint
    (mkOptions (Some "POST") (Some headers) (Some (BodyFormData formData))).

(** [const api = new FinBotAPI()]. *)
Definition api : FinBotAPI := new_FinBotAPI "".

(** [formData.forEach((value, key) => { data[key] = value })]: the own
    properties of [data].  The values are strings, and the accessor
    [__proto__] ignores a string: an entry of that name leaves [data]
    as it is. *)
Definition entries_to_object (formData : list (string * string))
  : gmap string string :=
  fold_left
    (fun data entry =>
       if String.eqb entry.1 "__proto__" then data
       else <[entry.1 := entry.2]> data)
    formData ∅.

(** [submitForm(form, { json })]; [pathname] is
    [window.location.pathname].  The returned promise settles as the
    promise of [api.request] does. *)
Definition submitForm (document : Dom.Document) (pathname : string)
  (fetch : Transport) (form : Dom.Form) (json : bool) : RequestRun :=
  let formData := Dom.FormData form in
  let method := or_else (Dom.form_method form) "POST" in
  let action := or_else (Dom.form_action form) pathname in
  let body :=
    if json then BodyJson (entries_to_object formData)
    else BodyFormData formData in
  let headers : gmap string string :=
    if json then {["Content-Type" := "application/json"]} else ∅ in
  request api document fetch action
    (mkOptions (Some (toUpperCase method)) (Some headers) (Some body)).

(** [get(endpoint, params)]; [queryString] is the text
    [new URLSearchParams(params).toString()]. *)
Definition get (this : FinBotAPI) (document : Dom.Document)
  (fetch : Transport) (endpoint : string) (queryString : string)
  : RequestRun :=
  let url :=
    if truthy queryString then endpoint ++ "?" ++ queryString
    else endpoint in
  request this document fetch url (mkOptions (Some "GET") None None).

(** [post(endpoint, data)] and [put(endpoint, data)]; [json] is the text
    [JSON.stringify(data)]. *)
Definition post (this : FinBotAPI) (document : Dom.Document)
  (fetch : Transport) (endpoint : string) (json : string) : RequestRun :=
  request this document fetch endpoint
    (mkOptions (Some "POST") None (Some (BodyText json))).

Definition put (this : FinBotAPI) (document : Dom.Document)
  (fetch : Transport) (endpoint : string) (json : string) : RequestRun :=
  request this document fetch endpoint
    (mkOptions (Some "PUT") None (Some (BodyText json))).

(** [delete(endpoint)]. *)
Definition delete_ (this : FinBotAPI) (document : Dom.Document)
  (fetch : Transport) (endpoint : string) : RequestRun :=
  request this document fetch endpoint (mkOptions (Some "DELETE") None None).

(** What [download] leaves behind: nothing, when the awaited request
    does not resolve; an exception of the [Blob] constructor, which
    converts the decoded data to a string; or a file offered to the
    user, with its content and the name of the [download] attribute. *)
Inductive Saved : Type :=
| NothingSaved
| BlobFailed (e : JsError)
| SavedAs (content : string) (name : string).

(** [download(endpoint, filename)]; [filename] is [None] for [null]. *)
Definition download (this : FinBotAPI) (document : Dom.Document)
  (fetch : Transport) (endpoint : string) (filename : option string)
  : RequestRun * Saved :=
  let run :=
    request this document fetch endpoint (mkOptions (Some "GET") None None) in
  match run with
  | Sent _ _ (Resolved response) =>
      match ToString (success_data response) with
      | Some content =>
          (run, SavedAs content (or_else (default "" filename) "download"))
      | None =>
          (run, BlobFailed
                  (TypeError "Cannot convert object to primitive value"))
      end
  | _ => (run, NothingSaved)
  end.

End Client.
End Api.

(** ** The auth-form submit handler of the web application *)

Module Web.
Import JsString Api.

Section Handler.
Context {host : Host}.

(** What [form.querySelector(selector)] gives for the selector of a
    field name: an exception when the selector does not parse, no
    element, or the first element of that name, of which the code
    uses [field.closest('.form-group')] alone: the group, by its number
    on the page, when the field is in one. *)
Inductive Found : Type :=
| NoElement
| FieldFound (group : option nat).

Definition QuerySelector : Type := string -> JsError + Found.

(** What the handler does to the page and the network, in order.
    [ClearFormErrors] is the call of [clearFormErrors];
    [AppendFormError] is a [.form-error] element with its text
    appended to a group, which takes the class [has-error]. *)
Inductive Action : Type :=
| PreventDefault
| ClearFormErrors
| AppendFormError (group : nat) (text : string)
| ShowLoading
| HideLoading
| FetchCall (url : string) (config : FetchConfig)
| Navigate (href : JsValue)
| Reload
| ConsoleError (error : APIError)
| ShowAlert (message : JsValue) (type : string)
| Uncaught (e : JsError).

(** The entries of an array, or of the characters of a string, from
    index [i] on. *)
Fixpoint index_entries (i : nat) (items : list JsValue)
  : list (string * JsValue) :=
  match items with
  | [] => []
  | item :: rest => (of_Z (Z.of_nat i), item) :: index_entries (S i) rest
  end.

(** [Object.entries(v)]. *)
Definition Object_entries (v : JsValue)
  : JsError + list (string * JsValue) :=
  match v with
  | JNull => inl (TypeError "Cannot convert undefined or null to object")
  | JBool _ => inr []
  | JNumber _ => inr []
  | JString s =>
      inr (index_entries 0
             (map (fun c => JString (String c EmptyString)) (chars s)))
  | JArray items => inr (index_entries 0 items)
  | JObject props =>
      inr (JsObject.own_property_order
             (fold_left
                (fun own p =>
                   JsObject.define_property (fst p) (snd p) own)
                props []))
  end.

(** The [errors] object of [validateForm] as a value: each own
    property an array of messages. *)
Definition errors_object (errors : list (string * list string))
  : JsValue :=
  JObject (map (fun p => (fst p, JArray (map JString (snd p)))) errors).

(** The selector of the template literal: [name=], between square
    brackets, with the field name between double quotes. *)
Definition name_selector (fieldName : string) : string :=
  "[name=" ++ String "034" fieldName ++ String "034" "]".

(** [errorDiv.textContent = Array.isArray(fieldErrors) ? fieldErrors[0]
    : fieldErrors]: the text the element gets.  [undefined] and [null]
    give the empty text; another value is converted to a string, which
    throws for an object that cannot be converted. *)
Definition error_text (fieldErrors : JsValue) : JsError + string :=
  let shown :=
    match fieldErrors with
    | JArray items => hd_error items
    | _ => Some fieldErrors
    end in
  match shown with
  | None => inr ""
  | Some JNull => inr ""
  | Some v =>
      match ToString v with
      | Some text => inr text
      | None => inl (TypeError "Cannot convert object to primitive value")
      end
  end.

(** The [forEach] of [displayFormErrors] over the entries: the actions,
    and the exception that ends it, if one does. *)
Fixpoint show_errors (querySelector : QuerySelector)
  (entries : list (string * JsValue)) : list Action * option JsError :=
  match entries with
  | [] => ([], None)
  | (fieldName, fieldErrors) :: rest =>
      match querySelector (name_selector fieldName) with
      | inl e => ([], Some e)
      | inr NoElement => show_errors querySelector rest
      | inr (FieldFound None) => show_errors querySelector rest
      | inr (FieldFound (Some fieldGroup)) =>
          match error_text fieldErrors with
          | inl e => ([], Some e)
          | inr text =>
              let (actions, escaped) := show_errors querySelector rest in
              (AppendFormError fieldGroup text :: actions, escaped)
          end
      end
  end.

(** [displayFormErrors(form, errors)]; [querySelector] is
    [form.querySelector]. *)
Definition displayFormErrors (querySelector : QuerySelector)
  (errors : JsValue) : list Action * option JsError :=
  match Object_entries errors with
  | inl e => ([ClearFormErrors], Some e)
  | inr entries =>
      let (actions, escaped) := show_errors querySelector entries in
      (ClearFormErrors :: actions, escaped)
  end.

(** [handleAPIError(error, options)]; [redirectOnAuth] and [showAlert]
    are [options.redirectOnAuth !== false] and
    [options.showAlert !== false]. *)
Definition handleAPIError (error : APIError)
  (redirectOnAuth showAlert : bool) : list Action :=
  ConsoleError error ::
  (if isAuthError error && redirectOnAuth
   then [Navigate (JString "/login")]
   else
     let message :=
       match get_prop_optional (error_data error) "message" with
       | Some m =>
           if to_boolean m then m
           else JString (or_else (error_message error) "An error occurred")
       | None =>
           JString (or_else (error_message error) "An error occurred")
       end in
     if showAlert then [ShowAlert message "danger"] else []).

(** An exception that is not an [APIError] reaches the [catch] clause,
    whose call of [error.isValidationError] throws in turn. *)
Definition not_a_function : JsError :=
  TypeError "error.isValidationError is not a function".

(** What follows [await submitForm(form, { json: true })] inside the
    [try] statement, [finally] clause apart, once the awaited promise
    has settled: the actions, and the exception that leaves the [try]
    statement, if one does. *)
Definition after_submit (querySelector : QuerySelector) (run : RequestRun)
  : list Action * option JsError :=
  match run with
  | Raised _ => ([], Some not_a_function)
  | Sent url config outcome =>
      let (actions, escaped) :=
        match outcome with
        | Resolved response =>
            match get_prop (success_data response) "redirect" with
            | inl _ => ([], Some not_a_function)
            | inr (Some target) =>
                if to_boolean target then ([Navigate target], None)
                else ([Reload], None)
            | inr None => ([Reload], None)
            end
        | Rejected error =>
            match get_prop_optional (error_data error) "errors" with
            | Some errors =>
                if isValidationError error && to_boolean errors
                then displayFormErrors querySelector errors
                else (handleAPIError error false true, None)
            | None => (handleAPIError error false true, None)
            end
        end in
      (FetchCall url config :: actions, escaped)
  end.

(** The exception with which the handler ends, if any. *)
Definition uncaught (escaped : option JsError) : list Action :=
  match escaped with
  | Some e => [Uncaught e]
  | None => []
  end.

(** [handleAuthSubmit(e)] for the event of submitting [form], run to
    its end: [fetch] is a transport whose promise settles, and
    [querySelector] is [form.querySelector] on the selectors of field
    names. *)
Definition handleAuthSubmit (document : Dom.Document) (pathname : string)
  (fetch : Transport) (querySelector : QuerySelector) (form : Dom.Form)
  : list Action :=
  let validation := Utils.validateForm form in
  if negb (Utils.form_isValid validation)
  then
    let (actions, escaped) :=
      displayFormErrors querySelector
        (errors_object (Utils.form_errors validation)) in
    (PreventDefault :: actions ++ uncaught escaped)%list
  else if negb (Dom.form_submit_button form)
  then [PreventDefault;
        Uncaught (TypeError
                    "Cannot read properties of null (reading 'classList')")]
  else
    let (actions, escaped) :=
      after_submit querySelector
        (submitForm document pathname fetch form true) in
    ([PreventDefault; ShowLoading] ++ actions ++ [HideLoading]
       ++ uncaught escaped)%list.

End Handler.

(** A [.form-group]: the texts of its [.form-error] children, in order,
    and whether it carries the class [has-error]. *)
Record FieldGroup : Type := mkFieldGroup {
  group_errors : list string;
  group_has_error : bool
}.

(** [validateField(e)] for the control [field] with the current value
    [value]; [fieldGroup] is [field.closest('.form-group')] and
    [passwordField] the value of the first [input[name=password]] of the
    document, if there is one.  The result is the group as it is left
    ([None] when there is no group). *)
Definition validateField (field : Dom.Field) (value : string)
  (fieldGroup : option FieldGroup) (passwordField : option string)
  : option FieldGroup :=
  let value := trim value in
  match fieldGroup with
  | None => None
  | Some group =>
      let cleared := mkFieldGroup (tl (group_errors group)) false in
      if negb (truthy value) && negb (Dom.field_required field)
      then Some cleared
      else
        let errorMessage :=
          if Dom.field_required field && negb (truthy value)
          then "This field is required"
          else if String.eqb (Dom.field_type field) "password"
                  && truthy value
          then
            let passwordValidation := Utils.validatePassword value in
            if negb (Utils.pw_isValid passwordValidation)
            then hd "" (Utils.pw_feedback passwordValidation)
            else ""
          else if String.eqb (Dom.field_name field) "confirm_password"
                  && truthy value
          then
            match passwordField with
            | Some password =>
                if negb (String.eqb value password)
                then "Passwords do not match" else ""
            | None => ""
            end
          else "" in
        if truthy errorMessage
        then Some (mkFieldGroup
                     (push (group_errors cleared) errorMessage) true)
        else Some cleared
  end.

End Web.

(** ** The agreement gate *)

Module Agreement.
Import JsString.

Definition exemptPages : list string := ["/agreement"].

(** [isExemptPage()] on [window.location.pathname]. *)
Definition isExemptPage (pathname : string) : bool :=
  existsb (fun page => ends_with pathname page || String.eqb pathname page)
    exemptPages.

(** [rows.find(row => row.startsWith(prefix))]. *)
Fixpoint find_row (prefix : string) (rows : list string) : option string :=
  match rows with
  | [] => None
  | row :: rest =>
      if starts_with prefix row then Some row else find_row prefix rest
  end.

(** [hasUserAgreed()]; [stored] is
    [localStorage.getItem('agreedToRules')]. *)
Definition hasUserAgreed (stored : option string) (cookie : string) : bool :=
  let localStorageAgreed :=
    match stored with
    | Some v => String.eqb v "yes"
    | None => false
    end in
  let cookieAgreed :=
    match find_row "agreedToRules=" (split_on "; " cookie) with
    | Some row =>
        match split "=" row with
        | _ :: second :: _ => String.eqb second "yes"
        | _ => false
        end
    | None => false
    end in
  localStorageAgreed || cookieAgreed.

(** [checkAgreement()]: whether the page is sent to [/agreement]. *)
Definition checkAgreement (pathname : string) (stored : option string)
  (cookie : string) : bool :=
  if isExemptPage pathname then false
  else if negb (hasUserAgreed stored cookie) then true
  else false.

End Agreement.

(** ** The specification's vocabulary *)

Module Spec.
Import JsString.

(** Every character of [s] is a digit. *)
Definition all_digits (s : string) : Prop :=
  Forall (fun c => is_digit c = true) (chars s).

(** "Two digits, optional single dash, seven digits". *)
Definition TinPattern (s : string) : Prop :=
  exists a dash b : string,
    s = a ++ dash ++ b
    /\ String.length a = 2%nat /\ all_digits a
    /\ (dash = "" \/ dash = "-")
    /\ String.length b = 7%nat /\ all_digits b.

(** Some character of [s] is in the class [p]. *)
Definition contains (p : ascii -> bool) (s : string) : bool :=
  existsb p (chars s).

(** The five password rules, each with the message of its failure, in
    the fixed order. *)
Definition password_rules : list ((string -> bool) * string) :=
  [ (fun p => (8 <=? String.length p)%nat, Utils.msg_length);
    (contains is_lower, Utils.msg_lower);
    (contains is_upper, Utils.msg_upper);
    (contains is_digit, Utils.msg_digit);
    (contains Utils.is_symbol, Utils.msg_symbol) ].

Definition satisfied (password : string) : list ((string -> bool) * string) :=
  List.filter (fun rule => rule.1 password) password_rules.

Definition failed (password : string) : list ((string -> bool) * string) :=
  List.filter (fun rule => negb (rule.1 password)) password_rules.

Definition digit_value (c : ascii) : nat := code c - 48.

(** One of the ten decimal digits, and the number of them in a string,
    wherever they stand. *)
Definition decimal_digit (c : ascii) : bool :=
  existsb (Ascii.eqb c) (chars "0123456789").

Fixpoint digit_count (s : string) : nat :=
  match s with
  | EmptyString => 0
  | String c s' =>
      ((if decimal_digit c then 1 else 0) + digit_count s')%nat
  end.

(** The standard ABA routing checksum, which the validator does not
    apply: the digits weighted 3, 7, 1, 3, 7, 1, 3, 7, 1 sum to a multiple
    of ten. *)
Definition aba_checksum_ok (s : string) : bool :=
  match map digit_value (chars s) with
  | [d1; d2; d3; d4; d5; d6; d7; d8; d9] =>
      ((3 * (d1 + d4 + d7) + 7 * (d2 + d5 + d8) + (d3 + d6 + d9)) mod 10 =? 0)%nat
  | _ => false
  end.

Section Client.
Context {host : Api.Host}.

(** The CSRF token [request] attaches: the one [getCSRFToken] finds,
    when it is not empty and the method is set and is not [GET]. *)
Definition attached_token (document : Dom.Document)
  (options : Api.RequestOptions) : option string :=
  match Api.opt_method options with
  | Some method =>
      if truthy method && negb (String.eqb method "GET")
      then
        match Api.getCSRFToken document with
        | inr (Some token) => if truthy token then Some token else None
        | _ => None
        end
      else None
  | None => None
  end.

(** [request] reads the CSRF token: the method is set, not empty and
    not [GET]. *)
Definition reads_token (options : Api.RequestOptions) : bool :=
  match Api.opt_method options with
  | Some method => truthy method && negb (String.eqb method "GET")
  | None => false
  end.

(** The token of the page, when [getCSRFToken] finds one that is not
    empty. *)
Definition page_token (document : Dom.Document) : option string :=
  match Api.getCSRFToken document with
  | inr (Some token) => if truthy token then Some token else None
  | _ => None
  end.

(** What the cookie loop makes of the value of the cookie it stops
    at. *)
Definition decoded (value : string) : Api.JsError + option string :=
  match Api.decodeURIComponent value with
  | Some token => inr (Some token)
  | None => inl (Api.URIError "URI malformed")
  end.

(** The response declares a JSON body. *)
Definition declares_json (response : Api.Response) : bool :=
  match Api.resp_headers response !! "content-type" with
  | Some contentType => includes contentType "application/json"
  | None => false
  end.

(** The message of the failure of a non-success response with body
    [data], before its conversion to a string: the [message] property
    of the body when it is truthy, the generic text otherwise. *)
Definition failure_message (response : Api.Response) (data : Api.JsValue)
  : Api.JsValue :=
  let generic :=
    "HTTP " ++ of_Z (Api.resp_status response) ++ ": "
    ++ Api.resp_statusText response in
  match Api.get_prop_optional data "message" with
  | Some m => if Api.to_boolean m then m else Api.JString generic
  | None => Api.JString generic
  end.

(** The message of the failure [request] makes of an exception: the
    exception's own when it has a non-empty one. *)
Definition exception_message (e : Api.JsError) : string :=
  match Api.js_message e with
  | Some message =>
      if truthy message then message else "Network error occurred"
  | None => "Network error occurred"
  end.



(** The handler has called [fetch]. *)
Definition calls_network (trace : list Web.Action) : Prop :=
  exists url config, In (Web.FetchCall url config) trace.

(** The calls of [fetch] in a trace, in order. *)
Definition fetch_calls (trace : list Web.Action)
  : list (string * Api.FetchConfig) :=
  flat_map
    (fun action =>
       match action with
       | Web.FetchCall url config => [(url, config)]
       | _ => []
       end)
    trace.

(** An action of [displayFormErrors]. *)
Definition display_action (action : Web.Action) : bool :=
  match action with
  | Web.ClearFormErrors => true
  | Web.AppendFormError _ _ => true
  | _ => false
  end.



End Client.

(** Every character of [s] is in the class [p]. *)
Definition all_in (p : ascii -> bool) (s : string) : Prop :=
  Forall (fun c => p c = true) (chars s).

(** A character that is neither white space nor an at sign. *)
Definition plain_char (c : ascii) : bool :=
  negb (is_space c) && negb (Ascii.eqb c "@").

(** "Non-space characters, an at sign, non-space characters, a dot,
    non-space characters", none of the three runs being empty or holding
    an at sign. *)
Definition EmailPattern (s : string) : Prop :=
  exists a b c : string,
    s = a ++ "@" ++ b ++ "." ++ c
    /\ a <> "" /\ b <> "" /\ c <> ""
    /\ all_in plain_char a /\ all_in plain_char b /\ all_in plain_char c.

(** The text of [document.cookie] for a list of cookies, each a name
    and a value: [name=value] rows separated by a semicolon and a
    space. *)
Definition cookie_row (cookie : string * string) : string :=
  fst cookie ++ "=" ++ snd cookie.

Fixpoint cookie_string (cookies : list (string * string)) : string :=
  match cookies with
  | [] => ""
  | [cookie] => cookie_row cookie
  | cookie :: rest => cookie_row cookie ++ "; " ++ cookie_string rest
  end.

(** The characters of a cookie name: no white space, semicolon or equals
    sign; those of a cookie value: no white space or semicolon. *)
Definition name_char (c : ascii) : bool :=
  negb (is_space c) && negb (Ascii.eqb c ";") && negb (Ascii.eqb c "=").
Definition value_char (c : ascii) : bool :=
  negb (is_space c) && negb (Ascii.eqb c ";").

Definition well_formed (cookies : list (string * string)) : Prop :=
  Forall (fun cookie =>
            all_in name_char (fst cookie) /\ all_in value_char (snd cookie))
    cookies.

(** The first cookie of a name. *)
Fixpoint first_cookie (name : string) (cookies : list (string * string))
  : option string :=
  match cookies with
  | [] => None
  | (n, v) :: rest =>
      if String.eqb n name then Some v else first_cookie name rest
  end.

(** A cookie value as the code reads it: up to its first equals sign. *)
Definition up_to_equals (value : string) : string :=
  hd "" (split "=" value).



(** A debounced function at rest: no timer is pending and [timeout] is
    falsy. *)
Definition idle {A : Type} (st : Utils.Debounced A) : Prop :=
  Utils.db_timeout st = None /\ Utils.db_timers st = [].

(** One timer is pending, the one [timeout] names; it holds [args]. *)
Definition armed {A : Type} (st : Utils.Debounced A) (args : A) : Prop :=
  exists id,
    Utils.db_timeout st = Some id /\ Utils.db_timers st = [(id, args)].

(** A throttled function at rest. *)
Definition throttle_open (st : Utils.Throttled) : Prop :=
  Utils.inThrottle st = false /\ Utils.th_timers st = 0%nat.

(** A burst of calls: the arguments of the calls before the last, and
    those of the last; and the events of a burst followed by the firing
    of the timer. *)
Definition burst_events {A : Type} (burst : list A * A)
  : list (Utils.TimerEvent A) :=
  (map Utils.Call (fst burst ++ [snd burst]) ++ [Utils.Fire])%list.

(** A burst given by its first call and the calls that follow it. *)
Definition leading_burst_events {A : Type} (burst : A * list A)
  : list (Utils.TimerEvent A) :=
  (map Utils.Call (fst burst :: snd burst) ++ [Utils.Fire])%list.

End Spec.

(** ** Concrete inputs for the examples *)

Module Examples.
Import Api.

(** A host whose numbers are the integers, printed in decimal, and whose
    [decodeURIComponent] leaves a text without escapes as it is and
    rejects the others. *)
Definition decode_plain (s : string) : option string :=
  if JsString.includes s "%" then None else Some s.

#[export] Instance host : Host := {|
  Number := Z;
  number_truthy := fun z => negb (z =? 0)%Z;
  number_to_string := JsString.of_Z;
  decodeURIComponent := decode_plain
|}.

(** A page with a CSRF meta tag, and one without token. *)
Definition page_with_token : Dom.Document :=
  Dom.mkDocument (Some (Some "page-token")) "".
Definition page_without_token : Dom.Document := Dom.mkDocument None "".

Definition json_headers : gmap string string :=
  {["content-type" := "application/json"]}.

(** Responses with a JSON body. *)
Definition json_response (status : Z) (statusText : string) (body : JsValue)
  : Response :=
  mkResponse status statusText json_headers (inr body)
    (inl (mkJsError (Some "body stream already read"))).

(** A server that answers every request with the same response, and a
    network that is down. *)
Definition server (response : Response) : Transport :=
  fun _ _ => inr response.
Definition offline (message : option string) : Transport :=
  fun _ _ => inl (mkJsError message).

(** The global client, at this host. *)
Definition api_instance : FinBotAPI := api.

(** The configuration of a [GET] without caller headers. *)
Definition get_config : FetchConfig :=
  mkConfig "same-origin" (Some "GET") None
    {["Content-Type" := "application/json"]}.

(** What [request] makes of a network that is down. *)
Definition network_failure (message : string) : Settlement :=
  Rejected (mkAPIError message 0 JNull).

(** The configuration of a request without options. *)
Definition plain_config : FetchConfig :=
  mkConfig "same-origin" None None {["Content-Type" := "application/json"]}.
Definition no_options : RequestOptions := mkOptions None None None.

(** An upload of one file from a page with a token, and the configuration
    [fetch] receives. *)
Definition report : list (string * string) := [("file", "report")].
Definition upload_config : FetchConfig :=
  mkConfig "same-origin" (Some "POST") (Some (BodyFormData report))
    {["Content-Type" := "application/json"; "X-CSRF-Token" := "page-token"]}.

(** A [POST] whose caller supplies two headers, one of them the CSRF
    header. *)
Definition caller_headers : gmap string string :=
  {["Accept" := "text/plain"; "X-CSRF-Token" := "caller-token"]}.
Definition transfer_options : RequestOptions :=
  mkOptions (Some "POST") (Some caller_headers) None.
Definition transfer_config : FetchConfig :=
  mkConfig "same-origin" (Some "POST") None
    {["Accept" := "text/plain"; "Content-Type" := "application/json";
      "X-CSRF-Token" := "page-token"]}.

(** The cookies of a session; the value of the token ends in padding. *)
Definition session_cookies : list (string * string) :=
  [ ("theme", "dark"); ("csrf_token", "dG9rZW4="); ("csrf_token", "later") ].

(** The cookies of a visitor who has agreed to the rules. *)
Definition agreed_cookies : list (string * string) :=
  [ ("theme", "dark"); ("agreedToRules", "yes") ].

(** A field that repeats the password, and the request of a [post]
    from a page with a token. *)
Definition confirm_field : Dom.Field :=
  Dom.mkField "confirm_password" "password" false None None [].
Definition post_config : FetchConfig :=
  mkConfig "same-origin" (Some "POST") (Some (BodyText "{}"))
    {["Content-Type" := "application/json"; "X-CSRF-Token" := "page-token"]}.

(** The request the login form makes without the [json] option. *)
Definition multipart_config : FetchConfig :=
  mkConfig "same-origin" (Some "POST")
    (Some (BodyFormData [("username", "bob"); ("password", "Abcd123!")]))
    {["Content-Type" := "application/json"; "X-CSRF-Token" := "page-token"]}.

(** Bodies of failed requests. *)
Definition empty_message_body : JsValue := JObject [("message", JString "")].
Definition unprintable_message_body : JsValue :=
  JObject [("message", JObject [("toString", JNull)])].
Definition no_vendor_body : JsValue :=
  JObject [("message", JString "No such vendor")].

(** A login form with a required user name and a password. *)
Definition username_field (username : string) : Dom.Field :=
  Dom.mkField "username" "text" true (Some (-1)%Z) (Some (-1)%Z) [username].
Definition password_field (password : string) : Dom.Field :=
  Dom.mkField "password" "password" false (Some (-1)%Z) (Some (-1)%Z)
    [password].
Definition login_form (username password : string) : Dom.Form :=
  Dom.mkForm [username_field username; password_field password]
    "post" "/login" true.


(** A page on which the user name is in the first group and the
    password in the second, and whose [querySelector] rejects a selector
    that holds a backslash. *)
Definition login_page : Web.QuerySelector :=
  fun selector =>
    if JsString.includes selector (String "092" "")
    then inl (mkJsError (Some "not a valid selector"))
    else if String.eqb selector (Web.name_selector "username")
    then inr (Web.FieldFound (Some 1%nat))
    else if String.eqb selector (Web.name_selector "password")
    then inr (Web.FieldFound (Some 2%nat))
    else inr Web.NoElement.

(** The request the login form makes from a page with a token. *)
Definition login_config (username password : string) : FetchConfig :=
  mkConfig "same-origin" (Some "POST")
    (Some (BodyJson {["username" := username; "password" := password]}))
    {["Content-Type" := "application/json"; "X-CSRF-Token" := "page-token"]}.

End Examples.


(** * Properties *)

#[local] Arguments String.append !_ _ / : simpl nomatch.

(** Closes a goal between closed terms by evaluation. *)
Ltac evaluate := vm_compute; first [reflexivity | discriminate].

(** ** Strings *)

Section StringFacts.
Import JsString.

Lemma append_empty_r (s : string) : s ++ "" = s.
Proof. induction s as [|c s IH]; simpl; [reflexivity | now rewrite IH]. Qed.

Lemma append_assoc (a b c : string) : (a ++ b) ++ c = a ++ (b ++ c).
Proof. induction a as [|x a IH]; simpl; [reflexivity | now rewrite IH]. Qed.

Lemma append_eq_empty (a b : string) : a ++ b = "" -> a = "" /\ b = "".
Proof. destruct a; simpl; [auto | discriminate]. Qed.

Lemma length_append (a b : string) :
  String.length (a ++ b) = (String.length a + String.length b)%nat.
Proof. induction a as [|x a IH]; simpl; [reflexivity | now rewrite IH]. Qed.

Lemma chars_append (a b : string) : chars (a ++ b) = (chars a ++ chars b)%list.
Proof. induction a as [|x a IH]; simpl; [reflexivity | now rewrite IH]. Qed.

Lemma length_chars (s : string) : List.length (chars s) = String.length s.
Proof. induction s as [|c s IH]; simpl; [reflexivity | now rewrite IH]. Qed.

Lemma remove_all_append (keep : ascii -> bool) (a b : string) :
  remove_all keep (a ++ b) = remove_all keep a ++ remove_all keep b.
Proof.
  induction a as [|x a IH]; simpl; [reflexivity |].
  destruct (keep x); simpl; now rewrite IH.
Qed.

Lemma remove_all_kept (keep : ascii -> bool) (s : string) :
  Forall (fun c => keep c = true) (chars (remove_all keep s)).
Proof.
  induction s as [|c s IH]; simpl; [constructor |].
  destruct (keep c) eqn:Hc; simpl; [constructor; assumption | assumption].
Qed.

Lemma remove_all_id (keep : ascii -> bool) (s : string) :
  Forall (fun c => keep c = true) (chars s) -> remove_all keep s = s.
Proof.
  induction s as [|c s IH]; simpl; intros H; [reflexivity |].
  inversion H as [|? ? Hc Hs]; subst. rewrite Hc, IH; auto.
Qed.

Lemma remove_all_length (keep : ascii -> bool) (s : string) :
  (String.length (remove_all keep s) <= String.length s)%nat.
Proof.
  induction s as [|c s IH]; simpl; [lia |]. destruct (keep c); simpl; lia.
Qed.

Lemma truthy_nonempty (s : string) : truthy s = true <-> s <> "".
Proof. destruct s; simpl; split; congruence. Qed.

End StringFacts.

(** ** The matcher decides the words of a pattern *)

Section RegexFacts.
Import JsString Regex.

Lemma nullable_Lang (r : regex) : nullable r = true <-> Lang r "".
Proof.
  split.
  - induction r; simpl; intros H; try discriminate.
    + constructor.
    + apply andb_true_iff in H as [H1 H2].
      change "" with ("" ++ ""). constructor; auto.
    + apply orb_true_iff in H as [H|H]; [apply LAltL | apply LAltR]; auto.
    + constructor.
  - intros H. remember "" as w eqn:Hw.
    induction H; simpl; try reflexivity; try discriminate.
    + apply append_eq_empty in Hw as [-> ->].
      rewrite IHLang1, IHLang2; reflexivity.
    + rewrite IHLang; auto.
    + rewrite IHLang; auto using orb_true_r.
Qed.

Lemma deriv_sound (c : ascii) (r : regex) (s : string) :
  Lang (deriv c r) s -> Lang r (String c s).
Proof.
  revert s. induction r; simpl; intros s H.
  - inversion H.
  - inversion H.
  - destruct (p c) eqn:Hp; inversion H; subst. now constructor.
  - destruct (nullable r1) eqn:Hn.
    + inversion H as [| |? ? ? ? ? ? | ? ? ? HL | ? ? ? HR | |]; subst.
      * inversion HL; subst.
        change (String c (s1 ++ s2)) with (String c s1 ++ s2).
        constructor; auto.
      * change (String c s) with ("" ++ String c s).
        constructor; [now apply nullable_Lang | auto].
    + inversion H; subst.
      change (String c (s1 ++ s2)) with (String c s1 ++ s2).
      constructor; auto.
  - inversion H; subst; [apply LAltL | apply LAltR]; auto.
  - inversion H; subst.
    change (String c (s1 ++ s2)) with (String c s1 ++ s2).
    constructor; auto.
Qed.

Lemma deriv_complete (c : ascii) (r : regex) (s : string) :
  Lang r (String c s) -> Lang (deriv c r) s.
Proof.
  intros H. remember (String c s) as w eqn:Hw. revert c s Hw.
  induction H; intros c0 s0 Hw; simpl; try discriminate.
  - injection Hw as <- <-. rewrite H. constructor.
  - destruct s1 as [|x s1]; simpl in Hw.
    + subst s2. apply nullable_Lang in H as ->.
      apply LAltR. now apply IHLang2.
    + injection Hw as <- <-.
      specialize (IHLang1 _ _ eq_refl).
      destruct (nullable r1); [apply LAltL |]; now constructor.
  - apply LAltL. now apply IHLang.
  - apply LAltR. now apply IHLang.
  - destruct s1 as [|x s1]; simpl in Hw.
    + now apply IHLang2.
    + injection Hw as <- <-. constructor; [now apply IHLang1 | assumption].
Qed.

Theorem test_whole_Lang (r : regex) (s : string) :
  test_whole r s = true <-> Lang r s.
Proof.
  revert r. induction s as [|c s IH]; intros r; simpl.
  - apply nullable_Lang.
  - rewrite IH. split; [apply deriv_sound | apply deriv_complete].
Qed.

Lemma Lang_Star_Any (s : string) : Lang (Star Any) s.
Proof.
  induction s as [|c s IH]; [constructor |].
  change (String c s) with (String c "" ++ s). constructor; [|assumption].
  now constructor.
Qed.

Lemma Lang_Class_inv (p : ascii -> bool) (s : string) :
  Lang (Class p) s -> exists c, s = String c "" /\ p c = true.
Proof. intros H. inversion H; subst. eauto. Qed.

Lemma existsb_split (p : ascii -> bool) (s : string) :
  existsb p (chars s) = true <->
  exists s1 c s2, s = s1 ++ String c s2 /\ p c = true.
Proof.
  split.
  - induction s as [|x s IH]; simpl; [discriminate |].
    destruct (p x) eqn:Hx; simpl.
    + intros _. exists "", x, s. auto.
    + intros H. destruct (IH H) as (s1 & c & s2 & -> & Hc).
      exists (String x s1), c, s2. auto.
  - intros (s1 & c & s2 & -> & Hc).
    rewrite chars_append, existsb_app. simpl. rewrite Hc.
    now rewrite orb_true_r.
Qed.

(** An unanchored one-class pattern looks for a character of the class. *)
Lemma test_Class (p : ascii -> bool) (s : string) :
  test (Class p) s = Spec.contains p s.
Proof.
  apply eq_iff_eq_true. unfold test, Spec.contains.
  rewrite test_whole_Lang, existsb_split. split.
  - intros H. inversion H as [| |? ? s1 s23 _ H23| | | |]; subst.
    inversion H23 as [| |? ? s2 s3 H2 _| | | |]; subst.
    apply Lang_Class_inv in H2 as (c & -> & Hc).
    exists s1, c, s3. auto.
  - intros (s1 & c & s2 & -> & Hc).
    constructor; [apply Lang_Star_Any |].
    change (String c s2) with (String c "" ++ s2).
    constructor; [now constructor | apply Lang_Star_Any].
Qed.

Lemma Lang_Repeat_Class (p : ascii -> bool) (n : nat) (s : string) :
  Lang (Repeat n (Class p)) s <->
  String.length s = n /\ Forall (fun c => p c = true) (chars s).
Proof.
  revert s. induction n as [|n IH]; intros s; simpl.
  - split.
    + intros H. inversion H; subst. simpl. auto.
    + intros [H _]. destruct s; [constructor | discriminate].
  - split.
    + intros H. inversion H as [| |? ? s1 s2 H1 H2| | | |]; subst.
      apply Lang_Class_inv in H1 as (c & -> & Hc).
      apply IH in H2 as [Hl Hf]. simpl. split; [congruence |].
      constructor; assumption.
    + intros [Hl Hf]. destruct s as [|c s]; [discriminate |].
      simpl in *. inversion Hf; subst.
      change (String c s) with (String c "" ++ s).
      constructor; [now constructor |]. apply IH. split; [congruence | assumption].
Qed.

Lemma Lang_Opt_Char (a : ascii) (s : string) :
  Lang (Opt (Char a)) s <-> s = "" \/ s = String a "".
Proof.
  unfold Opt, Char. split.
  - intros H. inversion H as [| | |? ? ? HL|? ? ? HR| |]; subst.
    + apply Lang_Class_inv in HL as (c & -> & Hc).
      apply Ascii.eqb_eq in Hc as ->. auto.
    + inversion HR. auto.
  - intros [-> | ->]; [apply LAltR; constructor | apply LAltL].
    constructor. apply Ascii.eqb_refl.
Qed.

(** The TIN pattern of the source has the words the specification
    describes. *)
Lemma tinRegex_Lang (s : string) : Lang Utils.tinRegex s <-> Spec.TinPattern s.
Proof.
  unfold Utils.tinRegex, Spec.TinPattern, Spec.all_digits. split.
  - intros H. inversion H as [| |? ? a rest Ha Hrest| | | |]; subst.
    inversion Hrest as [| |? ? dash b Hd Hb| | | |]; subst.
    apply (Lang_Repeat_Class is_digit 2) in Ha as [? ?].
    apply (Lang_Repeat_Class is_digit 7) in Hb as [? ?].
    apply Lang_Opt_Char in Hd.
    exists a, dash, b. auto 10.
  - intros (a & dash & b & -> & Hla & Hfa & Hd & Hlb & Hfb).
    constructor; [now apply (Lang_Repeat_Class is_digit 2) |].
    constructor;
      [now apply Lang_Opt_Char | now apply (Lang_Repeat_Class is_digit 7)].
Qed.

End RegexFacts.


(** ** Validators of utils.js *)

Section ValidatorFacts.
Import JsString Regex Utils.

Lemma validateTIN_valid (s : string) :
  s <> "" ->
  isValid (validateTIN s) = true <->
  String.length (strip_non_digits s) = 9%nat /\ test_whole tinRegex s = true.
Proof.
  intros Hs. apply truthy_nonempty in Hs. unfold validateTIN. rewrite Hs. simpl.
  destruct (String.length (strip_non_digits s) =? 9)%nat eqn:Hl; simpl.
  - apply Nat.eqb_eq in Hl.
    destruct (test_whole tinRegex s); simpl; intuition congruence.
  - apply Nat.eqb_neq in Hl. intuition congruence.
Qed.

Lemma validateRoutingNumber_valid (s : string) :
  s <> "" ->
  isValid (validateRoutingNumber s) = true <->
  String.length (strip_non_digits s) = 9%nat.
Proof.
  intros Hs. apply truthy_nonempty in Hs.
  unfold validateRoutingNumber. rewrite Hs. simpl.
  destruct (String.length (strip_non_digits s) =? 9)%nat eqn:Hl; simpl.
  - apply Nat.eqb_eq in Hl. intuition.
  - apply Nat.eqb_neq in Hl. intuition congruence.
Qed.

(** A string of nine characters, spelled out. *)
Lemma nine_chars (d : string) :
  String.length d = 9%nat ->
  exists c1 c2 c3 c4 c5 c6 c7 c8 c9,
    d = of_chars [c1; c2; c3; c4; c5; c6; c7; c8; c9].
Proof.
  intros H.
  do 9 (destruct d as [|? d]; [discriminate |]).
  destruct d; [| discriminate]. simpl. eauto 10.
Qed.

Lemma is_digit_dash : is_digit "-" = false.
Proof. reflexivity. Qed.

Lemma is_digit_blank : is_digit " " = false.
Proof. reflexivity. Qed.

Ltac nine_digits s d :=
  let Hd := fresh "Hd" in
  let E := fresh "E" in
  pose proof (remove_all_kept is_digit s) as Hd;
  fold (strip_non_digits s) in Hd;
  destruct (String.length (strip_non_digits s) =? 9)%nat eqn:E;
  [ apply Nat.eqb_eq, nine_chars in E;
    destruct E as (c1 & c2 & c3 & c4 & c5 & c6 & c7 & c8 & c9 & E);
    rewrite E in Hd |- *; clear E;
    repeat match goal with
           | H : Forall _ (chars (of_chars _)) |- _ => simpl in H
           | H : Forall _ (_ :: _) |- _ =>
               let Hc := fresh "Hc" in
               apply Forall_cons in H as [Hc H]
           end
  | ].

Lemma formatTIN_idempotent (s : string) : formatTIN (formatTIN s) = formatTIN s.
Proof.
  unfold formatTIN at 2 3. nine_digits s d.
  - cbn [of_chars slice slice_from substring String.length Nat.sub
           String.append].
    unfold formatTIN, strip_non_digits.
    cbn [remove_all]. rewrite is_digit_dash.
    repeat match goal with H : is_digit _ = true |- _ => rewrite H; clear H end.
    reflexivity.
  - unfold formatTIN. now rewrite E.
Qed.

Lemma formatRoutingNumber_idempotent (s : string) :
  formatRoutingNumber (formatRoutingNumber s) = formatRoutingNumber s.
Proof.
  unfold formatRoutingNumber at 2 3. nine_digits s d.
  - cbn [of_chars slice slice_from substring String.length Nat.sub
           String.append].
    unfold formatRoutingNumber, strip_non_digits.
    cbn [remove_all]. rewrite !is_digit_blank.
    repeat match goal with H : is_digit _ = true |- _ => rewrite H; clear H end.
    reflexivity.
  - unfold formatRoutingNumber. now rewrite E.
Qed.

End ValidatorFacts.


Section ValidatorClaims.
Import JsString Regex Utils.

(** C6: for a non-empty string, [validateTIN] answers valid exactly when
    nine digits remain after stripping the non-digits and the string is
    two digits, an optional single dash and seven digits;
    ["12-3456789"] is valid, and ["123-456-789"], which has nine digits,
    is not. *)
Theorem validateTIN_valid_iff_nine_digits_and_pattern :
  (forall s : string,
      s <> "" ->
      isValid (validateTIN s) = true <->
      String.length (strip_non_digits s) = 9%nat /\ Spec.TinPattern s)
  /\ isValid (validateTIN "12-3456789") = true
  /\ String.length (strip_non_digits "123-456-789") = 9%nat
  /\ isValid (validateTIN "123-456-789") = false.
Proof.
  split; [| repeat split].
  intros s Hs. rewrite (validateTIN_valid s Hs).
  now rewrite test_whole_Lang, tinRegex_Lang.
Qed.

Lemma validateTIN_valid_iff_witness :
  "12-3456789" <> ""
  /\ (isValid (validateTIN "12-3456789") = true <->
      String.length (strip_non_digits "12-3456789") = 9%nat
      /\ Spec.TinPattern "12-3456789").
Proof.
  split; [discriminate |].
  apply (proj1 validateTIN_valid_iff_nine_digits_and_pattern). discriminate.
Defined.

Lemma decimal_digit_is_digit (c : ascii) :
  Spec.decimal_digit c = is_digit c.
Proof. destruct c as [[] [] [] [] [] [] [] []]; reflexivity. Qed.

(** What stripping leaves has as many characters as the string has
    decimal digits. *)
Lemma strip_non_digits_length (s : string) :
  String.length (strip_non_digits s) = Spec.digit_count s.
Proof.
  unfold strip_non_digits. induction s as [|c s IH]; [reflexivity |].
  cbn [remove_all Spec.digit_count]. rewrite decimal_digit_is_digit.
  destruct (is_digit c); cbn [String.length]; lia.
Qed.

(** C7: for a non-empty string, [validateRoutingNumber] answers valid
    exactly when the string holds nine decimal digits, wherever they
    stand among its other characters; no checksum is applied:
    ["111111111"], which fails the ABA checksum, is valid.
    ["021-000-021"], of eleven characters, is valid, and ["12345678x"],
    of nine, is not. *)
Theorem validateRoutingNumber_valid_iff_nine_digits :
  (forall s : string,
      s <> "" ->
      isValid (validateRoutingNumber s) = true <->
      Spec.digit_count s = 9%nat)
  /\ isValid (validateRoutingNumber "111111111") = true
  /\ Spec.aba_checksum_ok "111111111" = false
  /\ isValid (validateRoutingNumber "021-000-021") = true
  /\ isValid (validateRoutingNumber "12345678x") = false.
Proof.
  split; [| repeat split].
  intros s Hs. rewrite <- strip_non_digits_length.
  now apply validateRoutingNumber_valid.
Qed.

Lemma validateRoutingNumber_valid_iff_witness :
  "021-000-021" <> ""
  /\ (isValid (validateRoutingNumber "021-000-021") = true <->
      Spec.digit_count "021-000-021" = 9%nat).
Proof.
  split; [discriminate |].
  apply (proj1 validateRoutingNumber_valid_iff_nine_digits). discriminate.
Defined.

(** C8: the score of [validatePassword] is the number of satisfied rules
    among the five, so it lies between 0 and 5; the password is valid
    exactly when the score is at least 4; the feedback is the messages of
    the failed rules in the rule order, so it has [5 - score] entries;
    ["abc"] is invalid with four entries of feedback and ["Abcd123!"] is
    valid with score 5. *)
Theorem validatePassword_score_and_feedback :
  (forall p : string,
      let r := validatePassword p in
      pw_score r = Z.of_nat (List.length (Spec.satisfied p))
      /\ (0 <= pw_score r <= 5)%Z
      /\ (pw_isValid r = true <-> (4 <= pw_score r)%Z)
      /\ pw_feedback r = map snd (Spec.failed p)
      /\ Z.of_nat (List.length (pw_feedback r)) = (5 - pw_score r)%Z)
  /\ pw_isValid (validatePassword "abc") = false
  /\ (4 <= List.length (pw_feedback (validatePassword "abc")))%nat
  /\ pw_isValid (validatePassword "Abcd123!") = true
  /\ pw_score (validatePassword "Abcd123!") = 5%Z.
Proof.
  split; [| repeat split; vm_compute; solve [congruence | lia | reflexivity]].
  intros p. unfold validatePassword, Spec.satisfied, Spec.failed,
    Spec.password_rules.
  rewrite !test_Class, Nat.ltb_antisym.
  cbn [List.filter fst snd].
  destruct (8 <=? String.length p)%nat, (Spec.contains is_lower p),
    (Spec.contains is_upper p), (Spec.contains is_digit p),
    (Spec.contains is_symbol p);
    cbn; repeat split; try reflexivity; try lia; try discriminate.
Qed.

(** C10: the formatters are idempotent, on every string. *)
Theorem formatters_idempotent (s : string) :
  formatTIN (formatTIN s) = formatTIN s
  /\ formatRoutingNumber (formatRoutingNumber s) = formatRoutingNumber s.
Proof.
  split; [apply formatTIN_idempotent | apply formatRoutingNumber_idempotent].
Qed.

End ValidatorClaims.


(** ** The request client *)

Section ClientFacts.
Import JsString Api.
Context {host : Host}.

(** The headers [request] sends: the merge of the defaults and the
    caller's headers, with the attached token. *)
Lemma request_headers_inr (this : FinBotAPI) (document : Dom.Document)
  (options : RequestOptions) (headers : gmap string string) :
  request_headers this document options = inr headers ->
  headers =
    match Spec.attached_token document options with
    | Some token =>
        <["X-CSRF-Token" := token]>
          (default ∅ (opt_headers options) ∪ defaultHeaders this)
    | None => default ∅ (opt_headers options) ∪ defaultHeaders this
    end.
Proof.
  unfold request_headers, Spec.attached_token, spread.
  destruct (opt_method options) as [method|]; [| congruence].
  destruct (truthy method && negb (String.eqb method "GET")); [| congruence].
  destruct (getCSRFToken document) as [e|[token|]]; [discriminate | | congruence].
  destruct (truthy token); congruence.
Qed.

Lemma request_Sent (this : FinBotAPI) (document : Dom.Document)
  (fetch : Transport) (endpoint : string) (options : RequestOptions)
  (url : string) (config : FetchConfig) (outcome : Settlement) :
  request this document fetch endpoint options = Sent url config outcome ->
  url = baseURL this ++ endpoint
  /\ request_headers this document options = inr (cfg_headers config)
  /\ config = request_config options (cfg_headers config)
  /\ outcome = request_catch (request_try (fetch url config)).
Proof.
  unfold request.
  destruct (request_headers this document options) as [e|headers];
    [discriminate |].
  intros [= <- <- <-]. auto.
Qed.

(** An exception of the transport or of the decoding of the body becomes
    a failure with status 0 and no payload. *)
Lemma request_try_exception (fetched : JsError + Response) (e : JsError) :
  fetched = inl e
  \/ (exists response, fetched = inr response /\ decode_body response = inl e) ->
  request_catch (request_try fetched)
  = Rejected (mkAPIError (Spec.exception_message e) 0 JNull).
Proof.
  unfold request_try.
  assert (or_else (default "" (js_message e)) "Network error occurred"
          = Spec.exception_message e) as Hm.
  { unfold Spec.exception_message, or_else.
    destruct (js_message e) as [m|]; reflexivity. }
  unfold request_try.
  intros [-> | (response & -> & Hd)]; simpl; [now rewrite Hm |].
  rewrite Hd. simpl. now rewrite Hm.
Qed.

Lemma get_prop_not_null (data : JsValue) (key : string) :
  data <> JNull -> get_prop data key = inr (get_prop_optional data key).
Proof. destruct data; simpl; congruence. Qed.

Lemma request_try_failure (response : Response) (data : JsValue)
  (text : string) :
  resp_ok response = false ->
  decode_body response = inr data ->
  data <> JNull ->
  ToString (Spec.failure_message response data) = Some text ->
  request_catch (request_try (inr response))
  = Rejected (mkAPIError text (resp_status response) data).
Proof.
  intros Hok Hd Hn Ht. unfold request_try. simpl. rewrite Hd. simpl.
  rewrite Hok. simpl. rewrite (get_prop_not_null _ _ Hn).
  unfold new_APIError.
  change (message_or_generic (get_prop_optional data "message") response)
    with (Spec.failure_message response data).
  rewrite Ht. reflexivity.
Qed.

End ClientFacts.

Section ClientClaims.
Import JsString Api.
Context {host : Host}.

(** C1 (the code does otherwise): the request [upload] issues carries the
    client's default [Content-Type] header, which [request] merges back
    into the headers [upload] had removed it from. *)
Theorem upload_sends_default_content_type (baseURL : string)
  (document : Dom.Document) (fetch : Transport) (endpoint : string)
  (formData : list (string * string))
  (url : string) (config : FetchConfig) (outcome : Settlement) :
  upload (new_FinBotAPI baseURL) document fetch endpoint formData
  = Sent url config outcome ->
  cfg_headers config !! "Content-Type" = Some "application/json".
Proof.
  unfold upload. intros H.
  apply request_Sent in H as (_ & H & _).
  apply request_headers_inr in H. rewrite H. simpl.
  assert (((delete "Content-Type"
              (spread ∅ {["Content-Type" := "application/json"]})
            : gmap string string)
           ∪ {["Content-Type" := "application/json"]}) !! "Content-Type"
          = Some "application/json") as Hm by reflexivity.
  destruct (Spec.attached_token _ _); [| exact Hm].
  rewrite lookup_insert_ne; [exact Hm | discriminate].
Qed.

(** C2, as corrected: the headers sent are the client defaults overridden
    by the caller's headers and then, when a token is attached, by the
    CSRF header; the caller's value is the one sent for every header name
    but that of the CSRF header, and for that one too when no token is
    attached; an attached token is the value sent under the CSRF
    header. *)
Theorem request_headers_merge (this : FinBotAPI) (document : Dom.Document)
  (fetch : Transport) (endpoint : string) (options : RequestOptions)
  (url : string) (config : FetchConfig) (outcome : Settlement) :
  request this document fetch endpoint options = Sent url config outcome ->
  let caller := default ∅ (opt_headers options) in
  let merged := caller ∪ defaultHeaders this in
  cfg_headers config
  = match Spec.attached_token document options with
    | Some token => <["X-CSRF-Token" := token]> merged
    | None => merged
    end
  /\ (forall name,
         caller !! name = None ->
         name <> "X-CSRF-Token"
         \/ Spec.attached_token document options = None ->
         cfg_headers config !! name = defaultHeaders this !! name)
  /\ (forall name value,
         caller !! name = Some value ->
         name <> "X-CSRF-Token"
         \/ Spec.attached_token document options = None ->
         cfg_headers config !! name = Some value)
  /\ (forall token,
         Spec.attached_token document options = Some token ->
         cfg_headers config !! "X-CSRF-Token" = Some token).
Proof.
  intros H caller merged.
  apply request_Sent in H as (_ & H & _).
  apply request_headers_inr in H. fold caller in H. fold merged in H.
  split; [exact H |]. split; [| split].
  - intros name Hc Hn.
    assert (merged !! name = defaultHeaders this !! name) as Hm
        by (unfold merged; now apply lookup_union_r).
    rewrite H. destruct (Spec.attached_token document options) as [token|].
    + destruct Hn as [Hn | Hn]; [| discriminate].
      rewrite lookup_insert_ne; [exact Hm | congruence].
    + exact Hm.
  - intros name value Hc Hn.
    assert (merged !! name = Some value) as Hm
        by (unfold merged; now apply lookup_union_Some_l).
    rewrite H. destruct (Spec.attached_token document options) as [token|].
    + destruct Hn as [Hn | Hn]; [| discriminate].
      rewrite lookup_insert_ne; [exact Hm | congruence].
    + exact Hm.
  - intros token Ht. rewrite H, Ht. apply lookup_insert_eq.
Qed.

(** C3, as corrected: a response with a non-success status whose decoded
    body is not [null] becomes a failure with the status of the response,
    the decoded body as payload, and as message the text of the body's
    [message] property when that property is truthy, the generic text
    ["HTTP status: statusText"] otherwise, whenever that message has a
    string form. *)
Theorem non_success_response_becomes_failure (this : FinBotAPI)
  (document : Dom.Document) (fetch : Transport) (endpoint : string)
  (options : RequestOptions)
  (url : string) (config : FetchConfig) (outcome : Settlement)
  (response : Response) (data : JsValue) (text : string) :
  request this document fetch endpoint options = Sent url config outcome ->
  fetch url config = inr response ->
  resp_ok response = false ->
  decode_body response = inr data ->
  data <> JNull ->
  ToString (Spec.failure_message response data) = Some text ->
  outcome = Rejected (mkAPIError text (resp_status response) data).
Proof.
  intros H Hf Hok Hd Hn Ht.
  apply request_Sent in H as (_ & _ & _ & ->).
  rewrite Hf. now apply request_try_failure.
Qed.

(** C4, as corrected: when the transport fails, or the decoding of the
    body of the response does, the promise of [request] rejects with an
    [APIError] of status 0 and payload [null], whose message is that of
    the exception when it has a non-empty one and
    ["Network error occurred"] otherwise. *)
Theorem transport_or_decoding_error_becomes_failure (this : FinBotAPI)
  (document : Dom.Document) (fetch : Transport) (endpoint : string)
  (options : RequestOptions)
  (url : string) (config : FetchConfig) (outcome : Settlement)
  (e : JsError) :
  request this document fetch endpoint options = Sent url config outcome ->
  fetch url config = inl e
  \/ (exists response,
         fetch url config = inr response /\ decode_body response = inl e) ->
  outcome = Rejected (mkAPIError (Spec.exception_message e) 0 JNull).
Proof.
  intros H He.
  apply request_Sent in H as (_ & _ & _ & ->).
  exact (request_try_exception _ e He).
Qed.

(** C5: [isAuthError] holds exactly for the statuses 401 and 403,
    [isValidationError] exactly for 400 and 422, [isServerError] exactly
    from 500 on; no two of them hold together; each depends on the status
    alone; at 401 and at 403 [isAuthError] holds and the other two do
    not. *)
Theorem error_categories (status : Z) (message message' : string)
  (data data' : JsValue) :
  let e := mkAPIError message status data in
  let e' := mkAPIError message' status data' in
  (isAuthError e = true <-> status = 401%Z \/ status = 403%Z)
  /\ (isValidationError e = true <-> status = 400%Z \/ status = 422%Z)
  /\ (isServerError e = true <-> (500 <= status)%Z)
  /\ isAuthError e && isValidationError e = false
  /\ isAuthError e && isServerError e = false
  /\ isValidationError e && isServerError e = false
  /\ isAuthError e = isAuthError e'
  /\ isValidationError e = isValidationError e'
  /\ isServerError e = isServerError e'
  /\ (isAuthError (mkAPIError message 401 data) = true
      /\ isValidationError (mkAPIError message 401 data) = false
      /\ isServerError (mkAPIError message 401 data) = false)
  /\ (isAuthError (mkAPIError message 403 data) = true
      /\ isValidationError (mkAPIError message 403 data) = false
      /\ isServerError (mkAPIError message 403 data) = false).
Proof.
  unfold isAuthError, isValidationError, isServerError. simpl.
  repeat split; try reflexivity;
    rewrite ?orb_true_iff, ?andb_false_iff, ?orb_false_iff,
      ?Z.eqb_eq, ?Z.eqb_neq, ?Z.leb_le, ?Z.leb_gt; lia.
Qed.

End ClientClaims.


(** ** The client on concrete requests *)

Section ClientExamples.
Import JsString Api Examples.

(** An upload on a page with a token: the request goes out with the
    default content type. *)
Lemma upload_sends_default_content_type_witness :
  upload (new_FinBotAPI "") page_with_token (offline None) "/files" report
  = Sent "/files" upload_config (network_failure "Network error occurred")
  /\ cfg_headers upload_config !! "Content-Type" = Some "application/json".
Proof.
  assert (upload (new_FinBotAPI "") page_with_token (offline None) "/files"
            report
          = Sent "/files" upload_config
              (network_failure "Network error occurred")) as Hrun
      by evaluate.
  split; [exact Hrun |].
  exact (upload_sends_default_content_type "" page_with_token (offline None)
           "/files" report "/files" upload_config
           (network_failure "Network error occurred") Hrun).
Defined.

(** C2, the claim as stated fails: on a [POST] from a page with a token,
    the CSRF header the caller supplied is replaced by the page's
    token. *)
Lemma caller_csrf_header_is_overridden :
  request api page_with_token (offline None) "/transfer" transfer_options
  = Sent "/transfer" transfer_config
      (network_failure "Network error occurred")
  /\ caller_headers !! "X-CSRF-Token" = Some "caller-token"
  /\ cfg_headers transfer_config !! "X-CSRF-Token" = Some "page-token".
Proof. repeat split; evaluate. Qed.

Lemma request_headers_merge_witness :
  request api page_with_token (offline None) "/transfer" transfer_options
  = Sent "/transfer" transfer_config
      (network_failure "Network error occurred")
  /\ cfg_headers transfer_config !! "Accept" = Some "text/plain"
  /\ cfg_headers transfer_config !! "Content-Type"
     = defaultHeaders api !! "Content-Type"
  /\ cfg_headers transfer_config !! "X-CSRF-Token" = Some "page-token".
Proof.
  assert (request api page_with_token (offline None) "/transfer"
            transfer_options
          = Sent "/transfer" transfer_config
              (network_failure "Network error occurred")) as Hrun
      by evaluate.
  destruct (request_headers_merge api page_with_token (offline None)
              "/transfer" transfer_options "/transfer" transfer_config
              (network_failure "Network error occurred") Hrun)
    as (_ & Hd & Hc & Ht).
  split; [exact Hrun |]. split; [| split].
  - apply (Hc "Accept" "text/plain"); [evaluate | left; discriminate].
  - apply (Hd "Content-Type"); [evaluate | left; discriminate].
  - apply (Ht "page-token"). evaluate.
Defined.

(** C3, the claim as stated fails: an empty [message] property is
    present, yet the failure carries the generic text; a body that
    decodes to [null] yields a failure with status 0, not the status of
    the response; and so does a [message] that has no string form. *)
Lemma empty_message_and_null_body_failures :
  request api page_without_token
    (server (json_response 400 "Bad Request" empty_message_body))
    "/login" no_options
  = Sent "/login" plain_config
      (Rejected (mkAPIError "HTTP 400: Bad Request" 400 empty_message_body))
  /\ request api page_without_token
       (server (json_response 400 "Bad Request" JNull)) "/login" no_options
     = Sent "/login" plain_config
         (Rejected
            (mkAPIError
               "Cannot read properties of null (reading 'message')" 0 JNull))
  /\ request api page_without_token
       (server (json_response 400 "Bad Request" unprintable_message_body))
       "/login" no_options
     = Sent "/login" plain_config
         (Rejected
            (mkAPIError "Cannot convert object to primitive value" 0 JNull)).
Proof. repeat split; evaluate. Qed.

Lemma non_success_response_becomes_failure_witness :
  request api page_without_token
    (server (json_response 404 "Not Found" no_vendor_body))
    "/vendors/7" no_options
  = Sent "/vendors/7" plain_config
      (Rejected (mkAPIError "No such vendor" 404 no_vendor_body))
  /\ Rejected (mkAPIError "No such vendor" 404 no_vendor_body)
     = Rejected
         (mkAPIError "No such vendor"
            (resp_status (json_response 404 "Not Found" no_vendor_body))
            no_vendor_body).
Proof.
  assert (request api page_without_token
            (server (json_response 404 "Not Found" no_vendor_body))
            "/vendors/7" no_options
          = Sent "/vendors/7" plain_config
              (Rejected (mkAPIError "No such vendor" 404 no_vendor_body)))
    as Hrun by evaluate.
  split; [exact Hrun |].
  apply (non_success_response_becomes_failure api page_without_token
           (server (json_response 404 "Not Found" no_vendor_body))
           "/vendors/7" no_options "/vendors/7" plain_config
           (Rejected (mkAPIError "No such vendor" 404 no_vendor_body))
           (json_response 404 "Not Found" no_vendor_body) no_vendor_body
           "No such vendor" Hrun);
    [reflexivity | evaluate | evaluate | discriminate | evaluate].
Defined.

(** C4, the claim as stated fails: a transport error with an empty
    message yields a failure that carries another text. *)
Lemma empty_transport_message_is_replaced :
  request api page_without_token (offline (Some "")) "/login" no_options
  = Sent "/login" plain_config (network_failure "Network error occurred")
  /\ "Network error occurred" <> "".
Proof. split; evaluate. Qed.

Lemma transport_or_decoding_error_becomes_failure_witness :
  request api page_without_token (offline (Some "Failed to fetch")) "/login"
    no_options
  = Sent "/login" plain_config (network_failure "Failed to fetch")
  /\ network_failure "Failed to fetch"
     = Rejected
         (mkAPIError
            (Spec.exception_message (mkJsError (Some "Failed to fetch")))
            0 JNull).
Proof.
  assert (request api page_without_token (offline (Some "Failed to fetch"))
            "/login" no_options
          = Sent "/login" plain_config (network_failure "Failed to fetch"))
    as Hrun by evaluate.
  split; [exact Hrun |].
  apply (transport_or_decoding_error_becomes_failure api page_without_token
           (offline (Some "Failed to fetch")) "/login" no_options "/login"
           plain_config (network_failure "Failed to fetch")
           (mkJsError (Some "Failed to fetch")) Hrun).
  left. reflexivity.
Defined.

End ClientExamples.


(** ** Form validation and the submit handler *)

Section FormFacts.
Import JsString Utils Api Web.
Context {host : Host}.





(** [displayFormErrors] clears and appends, and does nothing else. *)
Lemma show_errors_display (querySelector : QuerySelector)
  (entries : list (string * JsValue)) :
  forallb Spec.display_action (fst (show_errors querySelector entries))
  = true.
Proof.
  induction entries as [|[fieldName fieldErrors] rest IH]; [reflexivity |].
  cbn [show_errors].
  destruct (querySelector (name_selector fieldName)) as [e|[|[group|]]];
    try assumption; [reflexivity |].
  destruct (error_text fieldErrors) as [e|text]; [reflexivity |].
  destruct (show_errors querySelector rest) as [actions escaped].
  exact IH.
Qed.

Lemma displayFormErrors_display (querySelector : QuerySelector)
  (errors : JsValue) :
  exists shown,
    fst (displayFormErrors querySelector errors) = ClearFormErrors :: shown
    /\ forallb Spec.display_action shown = true.
Proof.
  unfold displayFormErrors.
  destruct (Object_entries errors) as [e|entries]; [now exists [] |].
  pose proof (show_errors_display querySelector entries) as H.
  destruct (show_errors querySelector entries) as [actions escaped].
  now exists actions.
Qed.

Lemma fetch_calls_app (a b : list Action) :
  Spec.fetch_calls (a ++ b)
  = (Spec.fetch_calls a ++ Spec.fetch_calls b)%list.
Proof. apply flat_map_app. Qed.

Lemma fetch_calls_display (actions : list Action) :
  forallb Spec.display_action actions = true ->
  Spec.fetch_calls actions = [].
Proof.
  induction actions as [|action rest IH]; [reflexivity |].
  cbn [forallb]. intros [Ha Hr]%andb_true_iff.
  destruct action; try discriminate; exact (IH Hr).
Qed.

Lemma fetch_calls_uncaught (escaped : option JsError) :
  Spec.fetch_calls (uncaught escaped) = [].
Proof. destruct escaped; reflexivity. Qed.

Lemma calls_network_fetch_calls (trace : list Action) :
  Spec.calls_network trace <-> Spec.fetch_calls trace <> [].
Proof.
  unfold Spec.calls_network.
  induction trace as [|action rest IH].
  - split; [intros (url & config & []) | intros H; now destruct H].
  - assert ((exists url config, In (FetchCall url config) rest)
            -> exists url config, In (FetchCall url config) (action :: rest))
      as Hr by (intros (u & c & H); exists u, c; now right).
    assert (forall url config,
               In (FetchCall url config) (action :: rest) ->
               action = FetchCall url config
               \/ In (FetchCall url config) rest) as Hi
        by (intros u c [H|H]; auto).
    destruct action;
      try (change (Spec.fetch_calls (?a :: rest))
             with (Spec.fetch_calls rest);
           rewrite <- IH; split;
           [intros (u & c & H); destruct (Hi u c H) as [|];
            [discriminate | eauto]
           | exact Hr]).
    split; [discriminate |]. intros _. exists url, config. now left.
Qed.

Lemma handleAuthSubmit_invalid (document : Dom.Document) (pathname : string)
  (fetch : Transport) (querySelector : QuerySelector) (form : Dom.Form) :
  form_isValid (validateForm form) = false ->
  handleAuthSubmit document pathname fetch querySelector form
  = (PreventDefault
       :: fst (displayFormErrors querySelector
                 (errors_object (form_errors (validateForm form))))
       ++ uncaught
            (snd (displayFormErrors querySelector
                    (errors_object (form_errors (validateForm form))))))%list.
Proof.
  intros H. unfold handleAuthSubmit. rewrite H. cbn [negb].
  now destruct (displayFormErrors _ _).
Qed.

Lemma no_network_call_when_invalid (document : Dom.Document)
  (pathname : string) (fetch : Transport) (querySelector : QuerySelector)
  (form : Dom.Form) :
  form_isValid (validateForm form) = false ->
  ~ Spec.calls_network
      (handleAuthSubmit document pathname fetch querySelector form).
Proof.
  intros H. rewrite calls_network_fetch_calls.
  rewrite (handleAuthSubmit_invalid _ _ _ _ _ H).
  destruct (displayFormErrors_display querySelector
              (errors_object (form_errors (validateForm form))))
    as (shown & -> & Hs).
  intros Hc. apply Hc.
  change (Spec.fetch_calls (PreventDefault :: ?l))
    with (Spec.fetch_calls l).
  rewrite fetch_calls_app, fetch_calls_uncaught, app_nil_r.
  now apply (fetch_calls_display (ClearFormErrors :: shown)).
Qed.

(** The trace of a valid form in which a submit button is found. *)
Lemma handleAuthSubmit_valid (document : Dom.Document) (pathname : string)
  (fetch : Transport) (querySelector : QuerySelector) (form : Dom.Form) :
  form_isValid (validateForm form) = true ->
  Dom.form_submit_button form = true ->
  handleAuthSubmit document pathname fetch querySelector form
  = ([PreventDefault; ShowLoading]
       ++ fst (after_submit querySelector
                 (submitForm document pathname fetch form true))
       ++ [HideLoading]
       ++ uncaught
            (snd (after_submit querySelector
                    (submitForm document pathname fetch form true))))%list.
Proof.
  intros Hv Hb. unfold handleAuthSubmit. rewrite Hv, Hb. cbn [negb].
  now destruct (after_submit _ _).
Qed.

Lemma fetch_calls_cons_fetch (url : string) (config : FetchConfig)
  (actions : list Action) :
  Spec.fetch_calls (FetchCall url config :: actions)
  = (url, config) :: Spec.fetch_calls actions.
Proof. reflexivity. Qed.

(** What follows the request calls [fetch] no more. *)
Lemma after_submit_fetch_calls (querySelector : QuerySelector)
  (run : RequestRun) :
  Spec.fetch_calls (fst (after_submit querySelector run))
  = match run with
    | Raised _ => []
    | Sent url config _ => [(url, config)]
    end.
Proof.
  destruct run as [e|url config outcome]; [reflexivity |].
  cbn [after_submit].
  match goal with
  | |- context [let (a, e) := ?inner in _] =>
      assert (Spec.fetch_calls (fst inner) = []) as Hi;
      [| destruct inner as [actions escaped]; cbn [fst] in *;
         rewrite fetch_calls_cons_fetch, Hi; reflexivity]
  end.
  destruct outcome as [response|error].
  - destruct (get_prop (success_data response) "redirect")
      as [e|[target|]]; try reflexivity.
    now destruct (to_boolean target).
  - assert (Spec.fetch_calls (handleAPIError error false true) = [])
      as Hh.
    { unfold handleAPIError. rewrite andb_false_r. reflexivity. }
    destruct (get_prop_optional (error_data error) "errors") as [errors|];
      [| exact Hh].
    destruct (isValidationError error && to_boolean errors);
      [| exact Hh].
    destruct (displayFormErrors_display querySelector errors)
      as (shown & Hf & Hs).
    rewrite Hf. now apply (fetch_calls_display (ClearFormErrors :: shown)).
Qed.

Lemma valid_form_fetch_calls (document : Dom.Document) (pathname : string)
  (fetch : Transport) (querySelector : QuerySelector) (form : Dom.Form) :
  form_isValid (validateForm form) = true ->
  Dom.form_submit_button form = true ->
  Spec.fetch_calls
    (handleAuthSubmit document pathname fetch querySelector form)
  = match submitForm document pathname fetch form true with
    | Raised _ => []
    | Sent url config _ => [(url, config)]
    end.
Proof.
  intros Hv Hb. rewrite (handleAuthSubmit_valid _ _ _ _ _ Hv Hb).
  rewrite !fetch_calls_app, after_submit_fetch_calls, fetch_calls_uncaught.
  cbn. now rewrite !app_nil_r.
Qed.





End FormFacts.

Section FormClaims.
Import JsString Utils Api Web.
Context {host : Host}.


End FormClaims.

Section FormExamples.
Import JsString Utils Api Web Examples.


(** The login form whose required user name is empty: one key, no
    request, and the error appended to the group of the field. *)
Lemma invalid_login_is_not_submitted :
  form_errors (validateForm (login_form "" "Abcd123!"))
  = [("username", ["username is required"])]
  /\ handleAuthSubmit page_with_token "/login"
       (server (json_response 200 "OK" JNull)) login_page
       (login_form "" "Abcd123!")
     = [PreventDefault; ClearFormErrors;
        AppendFormError 1 "username is required"].
Proof. split; evaluate. Qed.

End FormExamples.


(** ** Further facts about the code *)

Section Further.
Import JsString Utils Api Web.
Context {host : Host}.

(** X1: a non-success response whose body decodes to [null]: reading
    [data.message] throws inside the [try] block, and the [catch] clause
    turns the exception into a failure with status 0 and no payload; the
    status of the response is lost. *)
Theorem null_body_failure_has_status_zero (this : FinBotAPI)
  (document : Dom.Document) (fetch : Transport) (endpoint : string)
  (options : RequestOptions)
  (url : string) (config : FetchConfig) (outcome : Settlement)
  (response : Response) :
  request this document fetch endpoint options = Sent url config outcome ->
  fetch url config = inr response ->
  resp_ok response = false ->
  decode_body response = inr JNull ->
  outcome
  = Rejected
      (mkAPIError "Cannot read properties of null (reading 'message')"
         0 JNull).
Proof.
  intros H Hf Hok Hd.
  apply request_Sent in H as (_ & _ & _ & ->).
  rewrite Hf. unfold request_try. simpl. rewrite Hd. simpl.
  rewrite Hok. reflexivity.
Qed.


End Further.

Section FurtherExamples.
Import JsString Utils Api Web Examples.

Lemma null_body_failure_has_status_zero_witness :
  request api page_without_token
    (server (json_response 500 "Internal Server Error" JNull))
    "/vendors" no_options
  = Sent "/vendors" plain_config
      (network_failure "Cannot read properties of null (reading 'message')")
  /\ network_failure "Cannot read properties of null (reading 'message')"
     = Rejected
         (mkAPIError "Cannot read properties of null (reading 'message')"
            0 JNull).
Proof.
  assert (request api page_without_token
            (server (json_response 500 "Internal Server Error" JNull))
            "/vendors" no_options
          = Sent "/vendors" plain_config
              (network_failure
                 "Cannot read properties of null (reading 'message')"))
    as Hrun by evaluate.
  split; [exact Hrun |].
  apply (null_body_failure_has_status_zero api page_without_token
           (server (json_response 500 "Internal Server Error" JNull))
           "/vendors" no_options "/vendors" plain_config
           (network_failure
              "Cannot read properties of null (reading 'message')")
           (json_response 500 "Internal Server Error" JNull) Hrun);
    evaluate.
Defined.


(** A valid form on a page whose token cookie does not decode: nothing
    is sent. *)
Lemma undecodable_token_blocks_submission :
  handleAuthSubmit (Dom.mkDocument None "csrf_token=%") "/here"
    (offline None) login_page (login_form "bob" "Abcd123!")
  = [PreventDefault; ShowLoading; HideLoading; Uncaught not_a_function].
Proof. evaluate. Qed.

End FurtherExamples.


(** ** More on the validators and formatters *)

Section MoreRegexFacts.
Import JsString Regex.

Lemma Lang_Star_Class (p : ascii -> bool) (s : string) :
Lang (Star (Class p)) s <-> Spec.all_in p s.
Proof.
unfold Spec.all_in. split.
- intros H. remember (Star (Class p)) as r eqn:Hr.
  induction H; try discriminate; injection Hr as ->.
  + constructor.
  + apply Lang_Class_inv in H as (c & -> & Hc). simpl.
    constructor; [assumption | now apply IHLang2].
- induction s as [|c s IH]; simpl; intros H; [constructor |].
  inversion H; subst.
  change (String c s) with (String c "" ++ s).
  constructor; [now constructor | now apply IH].
Qed.

Lemma Lang_Plus_Class (p : ascii -> bool) (s : string) :
Lang (Plus (Class p)) s <-> s <> "" /\ Spec.all_in p s.
Proof.
unfold Plus. split.
- intros H. inversion H as [| |? ? s1 s2 H1 H2| | | |]; subst.
  apply Lang_Class_inv in H1 as (c & -> & Hc).
  apply Lang_Star_Class in H2. simpl. split; [discriminate |].
  constructor; assumption.
- intros [Hn Ha]. destruct s as [|c s]; [congruence |].
  inversion Ha; subst.
  change (String c s) with (String c "" ++ s).
  constructor; [now constructor | now apply Lang_Star_Class].
Qed.

Lemma Lang_Char_inv (a : ascii) (s : string) :
Lang (Char a) s <-> s = String a "".
Proof.
unfold Char. split.
- intros H. apply Lang_Class_inv in H as (c & -> & Hc).
  now apply Ascii.eqb_eq in Hc as ->.
- intros ->. constructor. apply Ascii.eqb_refl.
Qed.

End MoreRegexFacts.

Section MoreValidatorClaims.
Import JsString Regex Utils.

(** X3: for a non-empty string, [validateBankAccount] answers valid
  exactly when between 8 and 17 digits remain after stripping the
  non-digits; its third check never fails, so the message about digits
  is never given. *)
Theorem validateBankAccount_valid_iff_digit_count (s : string) :
(s <> "" ->
 isValid (validateBankAccount s) = true <->
 (8 <= String.length (strip_non_digits s) <= 17)%nat)
/\ message (validateBankAccount s)
   <> "Bank account number should contain only digits".
Proof.
unfold validateBankAccount.
destruct (truthy s) eqn:Hs; simpl.
2:{ split; [| discriminate]. intros Hn.
    apply truthy_nonempty in Hn. congruence. }
destruct (String.length (strip_non_digits s) <? 8)%nat eqn:H8; simpl.
{ apply Nat.ltb_lt in H8. split; [| discriminate].
  intros _. split; [discriminate | lia]. }
destruct (17 <? String.length (strip_non_digits s))%nat eqn:H17; simpl.
{ apply Nat.ltb_lt in H17. split; [| discriminate].
  intros _. split; [discriminate | lia]. }
apply Nat.ltb_ge in H8, H17.
assert (test_whole (Plus (Class is_digit)) (strip_non_digits s) = true)
  as ->.
{ apply test_whole_Lang, Lang_Plus_Class. split.
  - intros E. rewrite E in H8. simpl in H8. lia.
  - apply remove_all_kept. }
simpl. split; [| discriminate]. intros _. split; [lia | reflexivity].
Qed.

Lemma validateBankAccount_valid_iff_witness :
"0012-3456-78" <> ""
/\ (isValid (validateBankAccount "0012-3456-78") = true <->
    (8 <= String.length (strip_non_digits "0012-3456-78") <= 17)%nat).
Proof.
split; [discriminate |].
apply (proj1 (validateBankAccount_valid_iff_digit_count "0012-3456-78")).
discriminate.
Defined.

(** X4: [isValidEmail] accepts exactly the strings made of three non-empty
  runs of characters that are neither white space nor an at sign,
  the first and the second separated by an at sign, the second and the
  third by a dot. *)
Theorem isValidEmail_iff_pattern (s : string) :
isValidEmail s = true <-> Spec.EmailPattern s.
Proof.
unfold isValidEmail, emailRegex, Spec.EmailPattern.
rewrite test_whole_Lang.
change not_space_or_at with Spec.plain_char.
split.
- intros H.
  inversion H as [| |? ? a r1 Ha H1| | | |]; subst.
  inversion H1 as [| |? ? at_ r2 Hat H2| | | |]; subst.
  inversion H2 as [| |? ? b r3 Hb H3| | | |]; subst.
  inversion H3 as [| |? ? dot c Hdot Hc| | | |]; subst.
  apply Lang_Plus_Class in Ha as [? ?].
  apply Lang_Plus_Class in Hb as [? ?].
  apply Lang_Plus_Class in Hc as [? ?].
  apply Lang_Char_inv in Hat as ->.
  apply Lang_Char_inv in Hdot as ->.
  exists a, b, c. auto 10.
- intros (a & b & c & -> & Ha & Hb & Hc & Hpa & Hpb & Hpc).
  constructor; [now apply Lang_Plus_Class |].
  constructor; [now apply Lang_Char_inv |].
  constructor; [now apply Lang_Plus_Class |].
  constructor; [now apply Lang_Char_inv | now apply Lang_Plus_Class].
Qed.

(** X5: each of the three validators gives an empty message exactly when
  it answers valid, and on the empty string its message of a missing
  value. *)
Theorem validators_message_empty_iff_valid (s : string) :
(isValid (validateTIN s) = true <-> message (validateTIN s) = "")
/\ (isValid (validateBankAccount s) = true
    <-> message (validateBankAccount s) = "")
/\ (isValid (validateRoutingNumber s) = true
    <-> message (validateRoutingNumber s) = "")
/\ validateTIN "" = mkValidation false "TIN/EIN is required"
/\ validateBankAccount ""
   = mkValidation false "Bank account number is required"
/\ validateRoutingNumber ""
   = mkValidation false "Routing number is required".
Proof.
unfold validateTIN, validateBankAccount, validateRoutingNumber.
repeat split; try reflexivity;
  repeat match goal with
    | |- context [if ?b then _ else _] => destruct b; simpl
    end;
  intros H; try reflexivity; try discriminate.
Qed.

(** The digits of a value are those of its formatted form. *)
Lemma formatTIN_digits (s : string) :
strip_non_digits (formatTIN s) = strip_non_digits s.
Proof.
unfold formatTIN at 1. 
pose proof (remove_all_kept is_digit s) as Hd.
fold (strip_non_digits s) in Hd.
destruct (String.length (strip_non_digits s) =? 9)%nat eqn:E;
  [| reflexivity].
apply Nat.eqb_eq, nine_chars in E.
destruct E as (c1 & c2 & c3 & c4 & c5 & c6 & c7 & c8 & c9 & E).
rewrite E in Hd |- *. simpl in Hd.
repeat match goal with
       | H : Forall _ (_ :: _) |- _ =>
           let Hc := fresh "Hc" in apply Forall_cons in H as [Hc H]
       end.
cbn [of_chars slice slice_from substring String.length Nat.sub
       String.append].
unfold strip_non_digits. cbn [remove_all]. rewrite is_digit_dash.
repeat match goal with H : is_digit _ = true |- _ => rewrite H; clear H end.
reflexivity.
Qed.

Lemma formatRoutingNumber_digits (s : string) :
strip_non_digits (formatRoutingNumber s) = strip_non_digits s.
Proof.
unfold formatRoutingNumber at 1.
pose proof (remove_all_kept is_digit s) as Hd.
fold (strip_non_digits s) in Hd.
destruct (String.length (strip_non_digits s) =? 9)%nat eqn:E;
  [| reflexivity].
apply Nat.eqb_eq, nine_chars in E.
destruct E as (c1 & c2 & c3 & c4 & c5 & c6 & c7 & c8 & c9 & E).
rewrite E in Hd |- *. simpl in Hd.
repeat match goal with
       | H : Forall _ (_ :: _) |- _ =>
           let Hc := fresh "Hc" in apply Forall_cons in H as [Hc H]
       end.
cbn [of_chars slice slice_from substring String.length Nat.sub
       String.append].
unfold strip_non_digits. cbn [remove_all]. rewrite !is_digit_blank.
repeat match goal with H : is_digit _ = true |- _ => rewrite H; clear H end.
reflexivity.
Qed.

Lemma formatTIN_pattern (s : string) :
String.length (strip_non_digits s) = 9%nat -> Spec.TinPattern (formatTIN s).
Proof.
intros E. unfold formatTIN. rewrite (proj2 (Nat.eqb_eq _ _) E).
pose proof (remove_all_kept is_digit s) as Hd.
fold (strip_non_digits s) in Hd.
apply nine_chars in E.
destruct E as (c1 & c2 & c3 & c4 & c5 & c6 & c7 & c8 & c9 & E).
rewrite E in Hd |- *. simpl in Hd.
repeat match goal with
       | H : Forall _ (_ :: _) |- _ =>
           let Hc := fresh "Hc" in apply Forall_cons in H as [Hc H]
       end.
exists (of_chars [c1; c2]), "-", (of_chars [c3; c4; c5; c6; c7; c8; c9]).
unfold Spec.all_digits. simpl.
repeat split; auto; repeat constructor; assumption.
Qed.

(** X6: formatting keeps the digits of a value, and a value of nine digits
  is formatted into one its validator accepts. *)
Theorem formatted_value_is_valid (s : string) :
strip_non_digits (formatTIN s) = strip_non_digits s
/\ strip_non_digits (formatRoutingNumber s) = strip_non_digits s
/\ (String.length (strip_non_digits s) = 9%nat ->
    isValid (validateTIN (formatTIN s)) = true
    /\ isValid (validateRoutingNumber (formatRoutingNumber s)) = true).
Proof.
split; [apply formatTIN_digits |].
split; [apply formatRoutingNumber_digits |].
intros E.
assert (forall t, String.length (strip_non_digits t) = 9%nat -> t <> "")
  as Hne by (intros t Ht ->; discriminate).
split.
- apply validateTIN_valid.
  + apply Hne. now rewrite formatTIN_digits.
  + split; [now rewrite formatTIN_digits |].
    apply test_whole_Lang, tinRegex_Lang. now apply formatTIN_pattern.
- apply validateRoutingNumber_valid.
  + apply Hne. now rewrite formatRoutingNumber_digits.
  + now rewrite formatRoutingNumber_digits.
Qed.

Lemma formatted_value_is_valid_witness :
String.length (strip_non_digits "12 345 6789") = 9%nat
/\ isValid (validateTIN (formatTIN "12 345 6789")) = true
/\ isValid (validateRoutingNumber (formatRoutingNumber "12 345 6789"))
   = true.
Proof.
split; [reflexivity |].
apply (proj2 (proj2 (formatted_value_is_valid "12 345 6789"))).
reflexivity.
Defined.

End MoreValidatorClaims.


(** ** Debounce and throttle *)

Section TimerFacts.
Import Utils Spec.
Context {A : Type}.

Lemma debounce_run_app (immediate : bool) (st : Debounced A)
(e1 e2 : list (TimerEvent A)) :
debounce_run immediate st (e1 ++ e2)
= let (st1, out1) := debounce_run immediate st e1 in
  let (st2, out2) := debounce_run immediate st1 e2 in
  (st2, (out1 ++ out2)%list).
Proof.
revert st. induction e1 as [|ev e1 IH]; intros st; simpl.
- destruct (debounce_run immediate st e2). reflexivity.
- destruct (debounce_step immediate st ev) as [st1 o1].
  rewrite IH.
  destruct (debounce_run immediate st1 e1) as [st2 o2].
  destruct (debounce_run immediate st2 e2) as [st3 o3].
  now rewrite app_assoc.
Qed.

Lemma call_when_idle (immediate : bool) (st : Debounced A) (args : A) :
idle st ->
armed (fst (debounce_step immediate st (Call args))) args
/\ snd (debounce_step immediate st (Call args))
   = if immediate then [args] else [].
Proof.
intros [Ht Hq]. unfold armed. simpl. rewrite Ht, Hq. simpl.
split; [eauto |]. now rewrite andb_true_r.
Qed.

Lemma call_when_armed (immediate : bool) (st : Debounced A) (old args : A) :
armed st old ->
armed (fst (debounce_step immediate st (Call args))) args
/\ snd (debounce_step immediate st (Call args)) = [].
Proof.
intros (id & Ht & Hq). unfold armed. simpl. rewrite Ht, Hq. simpl.
rewrite Nat.eqb_refl. simpl. split; [eauto |]. now rewrite andb_false_r.
Qed.

Lemma fire_when_armed (immediate : bool) (st : Debounced A) (args : A) :
armed st args ->
idle (fst (debounce_step immediate st Fire))
/\ snd (debounce_step immediate st Fire)
   = if immediate then [] else [args].
Proof.
intros (id & Ht & Hq). unfold idle. simpl. rewrite Hq. simpl.
split; [auto |]. now destruct immediate.
Qed.

Lemma last_cons_default (x : A) (l : list A) (d d' : A) :
List.last (x :: l) d = List.last (x :: l) d'.
Proof.
revert x. induction l as [|y l IH]; intros x; [reflexivity |].
change (List.last (y :: l) d = List.last (y :: l) d'). apply IH.
Qed.

(** Calls that find a timer pending make no call of [func] and leave the
  timer of the last of them. *)
Lemma calls_when_armed (immediate : bool) (more : list A) (st : Debounced A)
(old : A) :
armed st old ->
armed (fst (debounce_run immediate st (map Call more))) (List.last more old)
/\ snd (debounce_run immediate st (map Call more)) = [].
Proof.
revert st old. induction more as [|x more IH]; intros st old Ha.
- simpl. auto.
- destruct (call_when_armed immediate st old x Ha) as [Hx Ho].
  specialize (IH _ x Hx). cbn [debounce_run map].
  destruct (debounce_step immediate st (Call x)) as [st1 o1].
  cbn [fst snd] in *.
  destruct (debounce_run immediate st1 (map Call more)) as [st2 o2].
  cbn [fst snd] in *. subst. destruct IH as [IH ->].
  split; [| reflexivity]. destruct more as [|y more]; [exact IH |].
  change (armed st2 (List.last (y :: more) old)).
  now rewrite (last_cons_default y more old x).
Qed.

(** A burst from the idle state, then the timer: the state is idle again;
  a trailing function has called [func] with the last arguments, a
  leading one with the first. *)
Lemma burst_when_idle (immediate : bool) (first : A) (more : list A)
(st : Debounced A) :
idle st ->
idle (fst (debounce_run immediate st
             (map Call (first :: more) ++ [Fire])))
/\ snd (debounce_run immediate st (map Call (first :: more) ++ [Fire]))
   = [if immediate then first else List.last more first].
Proof.
intros Hi. rewrite debounce_run_app.
destruct (call_when_idle immediate st first Hi) as [Ha Ho].
change (map Call (first :: more)) with (Call first :: map Call more).
cbn [debounce_run].
destruct (debounce_step immediate st (Call first)) as [st1 o1].
simpl in Ha, Ho.
destruct (calls_when_armed immediate more st1 first Ha) as [Hb Hn].
destruct (debounce_run immediate st1 (map Call more)) as [st2 o2].
simpl in Hb, Hn.
destruct (fire_when_armed immediate st2 _ Hb) as [Hc Hf].
destruct (debounce_step immediate st2 Fire) as [st3 o3].
simpl in Hc, Hf. subst. simpl. split; [assumption |].
now destruct immediate.
Qed.

Lemma last_snoc (l : list A) (a d : A) : List.last (l ++ [a]) d = a.
Proof.
induction l as [|x l IH]; [reflexivity |].
simpl. rewrite IH. now destruct l.
Qed.

Lemma trailing_bursts_from_idle (bursts : list (list A * A))
(st : Debounced A) :
idle st ->
snd (debounce_run false st (concat (map Spec.burst_events bursts)))
= map snd bursts.
Proof.
revert st. induction bursts as [|[pre a] bursts IH]; intros st Hi;
  [reflexivity |].
cbn [concat map]. rewrite debounce_run_app.
unfold Spec.burst_events at 1. cbn [fst snd].
destruct (pre ++ [a])%list as [|first more] eqn:E.
{ destruct pre; discriminate. }
destruct (burst_when_idle false first more st Hi) as [Hj Ho].
destruct (debounce_run false st (map Call (first :: more) ++ [Fire]))
  as [st1 o1].
simpl in Hj, Ho. specialize (IH st1 Hj).
destruct (debounce_run false st1 _) as [st2 o2]. simpl in IH.
cbn [fst snd map]. subst.
destruct pre as [|x pre]; simpl in E.
- now injection E as <- <-.
- injection E as <- <-. now rewrite last_snoc.
Qed.

Lemma leading_bursts_from_idle (bursts : list (A * list A))
(st : Debounced A) :
idle st ->
snd (debounce_run true st (concat (map Spec.leading_burst_events bursts)))
= map fst bursts.
Proof.
revert st. induction bursts as [|[first more] bursts IH]; intros st Hi;
  [reflexivity |].
cbn [concat map]. rewrite debounce_run_app.
unfold Spec.leading_burst_events at 1. cbn [fst snd].
destruct (burst_when_idle true first more st Hi) as [Hj Ho].
destruct (debounce_run true st (map Call (first :: more) ++ [Fire]))
  as [st1 o1].
simpl in Hj, Ho. specialize (IH st1 Hj).
destruct (debounce_run true st1 _) as [st2 o2]. cbn [fst snd] in *.
now subst.
Qed.

Lemma trailing_calls_are_silent (calls : list A) (st : Debounced A) :
snd (debounce_run false st (map Call calls)) = [].
Proof.
revert st. induction calls as [|x calls IH]; intros st; [reflexivity |].
simpl. specialize (IH (mkDebounced (Some (db_next st))
    (clearTimeout (db_timeout st) (db_timers st) ++ [(db_next st, x)])
    (S (db_next st)))).
destruct (debounce_run false _ (map Call calls)) as [st2 o2].
simpl in IH. now subst.
Qed.

(** X7: a debounced function on its trailing edge calls [func] once for
  each burst of calls that the timer follows, with the arguments of the
  last call of the burst, and never before the timer fires. *)
Theorem debounce_trailing_edge (bursts : list (list A * A))
(calls : list A) :
snd (debounce_run false debounce
       (concat (map Spec.burst_events bursts)))
= map snd bursts
/\ snd (debounce_run false debounce (map Call calls)) = [].
Proof.
split.
- apply trailing_bursts_from_idle. split; reflexivity.
- apply trailing_calls_are_silent.
Qed.

(** X8: with [immediate] set, a debounced function calls [func] once for
  each burst, at its first call and with its arguments; the calls that
  follow before the timer fires, and the timer itself, call nothing. *)
Theorem debounce_leading_edge (bursts : list (A * list A)) :
snd (debounce_run true debounce
       (concat (map Spec.leading_burst_events bursts)))
= map fst bursts.
Proof. apply leading_bursts_from_idle. split; reflexivity. Qed.

Lemma throttle_run_app (st : Throttled) (e1 e2 : list (TimerEvent A)) :
throttle_run st (e1 ++ e2)
= let (st1, out1) := throttle_run st e1 in
  let (st2, out2) := throttle_run st1 e2 in
  (st2, (out1 ++ out2)%list).
Proof.
revert st. induction e1 as [|ev e1 IH]; intros st; simpl.
- destruct (throttle_run st e2). reflexivity.
- destruct (throttle_step st ev) as [st1 o1].
  rewrite IH.
  destruct (throttle_run st1 e1) as [st2 o2].
  destruct (throttle_run st2 e2) as [st3 o3].
  now rewrite app_assoc.
Qed.

Lemma throttle_closed_calls (more : list A) (n : nat) :
throttle_run (mkThrottled true n) (map Call more)
= (mkThrottled true n, []).
Proof.
induction more as [|x more IH]; [reflexivity |].
simpl. now rewrite IH.
Qed.

Lemma throttle_bursts_from_open (bursts : list (A * list A))
(st : Throttled) :
throttle_open st ->
snd (throttle_run st (concat (map Spec.leading_burst_events bursts)))
= map fst bursts.
Proof.
revert st. induction bursts as [|[first more] bursts IH]; intros st Ho;
  [reflexivity |].
destruct st as [b n]. destruct Ho as [Hb Hn]. simpl in Hb, Hn. subst.
cbn [concat map]. rewrite throttle_run_app.
unfold Spec.leading_burst_events at 1. cbn [fst snd map].
rewrite throttle_run_app. cbn [throttle_run throttle_step inThrottle
  th_timers negb app].
rewrite throttle_closed_calls. cbn.
specialize (IH (mkThrottled false 0) (conj eq_refl eq_refl)).
destruct (throttle_run (mkThrottled false 0) _) as [st2 o2].
simpl in IH. now subst.
Qed.

(** X9: a throttled function calls [func] at the first call of each
  burst, with its arguments; the calls that follow until the timer
  fires are dropped, not deferred. *)
Theorem throttle_leading_call (bursts : list (A * list A)) :
snd (throttle_run throttle
       (concat (map Spec.leading_burst_events bursts)))
= map fst bursts.
Proof. apply throttle_bursts_from_open. split; reflexivity. Qed.

End TimerFacts.


(** ** Relative time, device classes and the loading state *)

Section DisplayFacts.
Import JsString Utils.





(** X11: every window width is of exactly one device class: mobile up to
  768, tablet from 769 to 1024, desktop above. *)
Theorem device_classes_partition (innerWidth : Z) :
(isMobile innerWidth = true <-> (innerWidth <= 768)%Z)
/\ (isTablet innerWidth = true <-> (769 <= innerWidth <= 1024)%Z)
/\ (isDesktop innerWidth = true <-> (1025 <= innerWidth)%Z)
/\ ((isMobile innerWidth = true /\ isTablet innerWidth = false
     /\ isDesktop innerWidth = false)
    \/ (isMobile innerWidth = false /\ isTablet innerWidth = true
        /\ isDesktop innerWidth = false)
    \/ (isMobile innerWidth = false /\ isTablet innerWidth = false
        /\ isDesktop innerWidth = true)).
Proof.
unfold isMobile, isTablet, isDesktop.
destruct (innerWidth <=? 768)%Z eqn:H1, (768 <? innerWidth)%Z eqn:H2,
  (innerWidth <=? 1024)%Z eqn:H3, (1024 <? innerWidth)%Z eqn:H4;
  simpl;
  rewrite ?Z.leb_le, ?Z.leb_gt, ?Z.ltb_lt, ?Z.ltb_ge in *;
  try lia;
  (repeat split; try (intros; lia); try discriminate; auto 10).
Qed.

Lemma classList_remove_absent (token : string) (tokens : list string) :
existsb (String.eqb token) tokens = false ->
Dom.classList_remove token tokens = tokens.
Proof.
unfold Dom.classList_remove.
induction tokens as [|t tokens IH]; simpl; [reflexivity |].
intros H. apply orb_false_iff in H as [Ht H].
rewrite Ht. simpl. now rewrite IH.
Qed.

Lemma classList_remove_gone (token : string) (tokens : list string) :
existsb (String.eqb token) (Dom.classList_remove token tokens) = false.
Proof.
unfold Dom.classList_remove.
induction tokens as [|t tokens IH]; simpl; [reflexivity |].
destruct (String.eqb token t) eqn:Ht; simpl; [assumption |].
now rewrite Ht.
Qed.

Lemma classList_remove_app (token : string) (a b : list string) :
Dom.classList_remove token (a ++ b)
= (Dom.classList_remove token a ++ Dom.classList_remove token b)%list.
Proof. unfold Dom.classList_remove. apply List.filter_app. Qed.

(** X12: the function [showLoading] returns puts back the text the element
  had, enables it and takes the class [loading] away; the element is as
  it was exactly when it was enabled and had no class [loading]. *)
Theorem showLoading_then_restore (element : Dom.Element) (text : string) :
let shown := showLoading element text in
let restored := hideLoading (snd shown) (fst shown) in
Dom.textContent (fst shown) = text
/\ Dom.disabled (fst shown) = true
/\ existsb (String.eqb "loading") (Dom.classList (fst shown)) = true
/\ Dom.textContent restored = Dom.textContent element
/\ Dom.disabled restored = false
/\ existsb (String.eqb "loading") (Dom.classList restored) = false
/\ (restored = element <->
    Dom.disabled element = false
    /\ existsb (String.eqb "loading") (Dom.classList element) = false).
Proof.
destruct element as [classes content off].
unfold showLoading, hideLoading, Dom.classList_add. cbn [fst snd
  Dom.classList Dom.textContent Dom.disabled].
generalize "loading". intros token.
split; [reflexivity |]. split; [reflexivity |]. split.
{ destruct (existsb (String.eqb token) classes) eqn:E; [assumption |].
  rewrite existsb_app, E. simpl. now rewrite String.eqb_refl. }
split; [reflexivity |]. split; [reflexivity |].
split; [apply classList_remove_gone |]. split.
- intros [= Hc <-]. split; [reflexivity |].
  rewrite <- Hc. apply classList_remove_gone.
- intros [-> Hc]. rewrite Hc.
  rewrite classList_remove_app, (classList_remove_absent _ _ Hc).
  unfold Dom.classList_remove. simpl. rewrite String.eqb_refl. simpl.
  now rewrite app_nil_r.
Qed.

End DisplayFacts.


(** ** The report of validateForm *)

Section ReportFacts.
Import JsString Utils.












(** X14: a field whose value is missing or empty has the error of a
  missing value when it is required and no error otherwise, whatever its
  type and its length bounds; a required field whose value is blank has
  that error first. *)
Theorem field_errors_of_empty_value (formData : list (string * string))
(field : Dom.Field) :
(value_truthy (Dom.FormData_get formData (Dom.field_name field)) = false ->
 field_errors formData field
 = if Dom.field_required field
   then [Dom.field_name field ++ " is required"] else [])
/\ (forall v,
       Dom.FormData_get formData (Dom.field_name field) = Some v ->
       trim v = "" ->
       Dom.field_required field = true ->
       hd_error (field_errors formData field)
       = Some (Dom.field_name field ++ " is required")).
Proof.
split.
- unfold field_errors, value_truthy.
  destruct (Dom.FormData_get formData (Dom.field_name field)) as [v|];
    intros Hv.
  + rewrite Hv.
    destruct (Dom.field_required field),
      (Dom.field_minLength field), (Dom.field_maxLength field);
      repeat (rewrite ?andb_false_r; simpl); reflexivity.
  + destruct (Dom.field_required field),
      (Dom.field_minLength field), (Dom.field_maxLength field);
      reflexivity.
- intros v Hg Ht Hr. unfold field_errors, value_truthy.
  rewrite Hg, Ht, Hr. simpl. rewrite orb_true_r. unfold push, push_all.
  repeat match goal with
    | |- context [match ?x with Some _ => _ | None => _ end] =>
        destruct x
    | |- context [if ?b then _ else _] => destruct b
    end; reflexivity.
Qed.

Lemma field_errors_of_empty_value_witness :
value_truthy
  (Dom.FormData_get [("email", "")]
     (Dom.field_name (Dom.mkField "email" "email" true None None [""])))
= false
/\ field_errors [("email", "")]
     (Dom.mkField "email" "email" true None None [""])
   = ["email is required"].
Proof.
split; [reflexivity |].
apply (proj1 (field_errors_of_empty_value [("email", "")]
                (Dom.mkField "email" "email" true None None [""]))).
reflexivity.
Defined.

End ReportFacts.

Section SubmitFacts.
Import JsString Utils Api.
Context {host : Host}.

Lemma entries_to_object_snoc (formData : list (string * string))
(entry : string * string) :
entries_to_object (formData ++ [entry])
= if String.eqb entry.1 "__proto__" then entries_to_object formData
  else <[entry.1 := entry.2]> (entries_to_object formData).
Proof. unfold entries_to_object. now rewrite fold_left_app. Qed.

(** The object built from the entries holds, under each name but
  [__proto__], the last value of that name, and nothing under
  [__proto__]. *)
Lemma entries_to_object_lookup (formData : list (string * string))
(name : string) :
entries_to_object formData !! name
= if String.eqb name "__proto__" then None
  else Dom.FormData_get (rev formData) name.
Proof.
induction formData as [|[k v] formData IH] using rev_ind.
- cbn. now destruct (String.eqb name "__proto__").
- rewrite entries_to_object_snoc, rev_app_distr. simpl.
  destruct (String.eqb_spec k "__proto__") as [-> | Hk].
  + rewrite IH. destruct (String.eqb name "__proto__") eqn:E;
      [reflexivity |].
    rewrite String.eqb_sym, E. reflexivity.
  + destruct (String.eqb_spec k name) as [<- | Hn].
    * rewrite lookup_insert_eq.
      destruct (String.eqb_spec k "__proto__"); [congruence | reflexivity].
    * now rewrite lookup_insert_ne.
Qed.

(** X15: the JSON body [submitForm] sends holds, under each name but
  [__proto__], the last value of that name in the form data, where
  [validateForm] has read the first; an entry named [__proto__] is not
  in the body. *)
Theorem submitForm_json_body_last_value (document : Dom.Document)
(pathname : string) (fetch : Transport) (form : Dom.Form)
(url : string) (config : FetchConfig) (outcome : Settlement) :
submitForm document pathname fetch form true = Sent url config outcome ->
exists data,
  cfg_body config = Some (BodyJson data)
  /\ data !! "__proto__" = None
  /\ forall name,
      name <> "__proto__" ->
      data !! name = Dom.FormData_get (rev (Dom.FormData form)) name.
Proof.
unfold submitForm. intros H.
apply request_Sent in H as (_ & _ & -> & _). simpl.
eexists. split; [reflexivity |]. split.
- now rewrite entries_to_object_lookup.
- intros name Hn. rewrite entries_to_object_lookup.
  apply String.eqb_neq in Hn. now rewrite Hn.
Qed.

End SubmitFacts.


(** ** More on the request client *)

Section MoreClientFacts.
Import JsString Api.
Context {host : Host}.

(** A request whose method does not make [request] read the token is
  sent. *)
Lemma request_sent_without_token (this : FinBotAPI)
(document : Dom.Document) (fetch : Transport) (endpoint : string)
(options : RequestOptions) :
Spec.reads_token options = false ->
exists outcome,
  request this document fetch endpoint options
  = Sent (baseURL this ++ endpoint)
      (request_config options
         (default ∅ (opt_headers options) ∪ defaultHeaders this))
      outcome.
Proof.
unfold request, request_headers, Spec.reads_token, spread.
destruct (opt_method options) as [m|]; [| eauto].
intros ->. eauto.
Qed.

(** X16: [request] reads the CSRF token only when the method is set, not
  empty and not [GET]; such a request is not sent when the reading of
  the token throws, and the exception is what the caller gets; every
  other request is sent, with the client defaults overridden by the
  caller's headers and nothing else. *)
Theorem request_is_sent_unless_token_reading_throws (this : FinBotAPI)
(document : Dom.Document) (fetch : Transport) (endpoint : string)
(options : RequestOptions) :
(forall e,
    request this document fetch endpoint options = Raised e <->
    Spec.reads_token options = true /\ getCSRFToken document = inl e)
/\ (Spec.reads_token options = false ->
    exists outcome,
      request this document fetch endpoint options
      = Sent (baseURL this ++ endpoint)
          (request_config options
             (default ∅ (opt_headers options) ∪ defaultHeaders this))
          outcome).
Proof.
unfold request, request_headers, Spec.reads_token, spread. split.
- intros e.
  destruct (opt_method options) as [m|];
    [| split; [discriminate | intros [? _]; discriminate]].
  destruct (truthy m && negb (String.eqb m "GET"));
    [| split; [discriminate | intros [? _]; discriminate]].
  destruct (getCSRFToken document) as [e'|[token|]].
  + split; [intros [= ->]; auto | intros [_ [= ->]]; reflexivity].
  + destruct (truthy token);
      (split; [discriminate | intros [_ ?]; discriminate]).
  + split; [discriminate | intros [_ ?]; discriminate].
- apply request_sent_without_token.
Qed.

(** X17: a response with a success status whose body decodes resolves the
  promise of [request] with the decoded data, the status and the headers
  of the response, whatever the data, [null] included; the body is
  decoded as JSON exactly when the declared media type mentions
  [application/json], and is a string value otherwise. *)
Theorem success_response_resolves (this : FinBotAPI)
(document : Dom.Document) (fetch : Transport) (endpoint : string)
(options : RequestOptions)
(url : string) (config : FetchConfig) (outcome : Settlement)
(response : Response) :
request this document fetch endpoint options = Sent url config outcome ->
fetch url config = inr response ->
resp_ok response = true ->
(forall data,
    decode_body response = inr data ->
    outcome
    = Resolved (mkSuccess data (resp_status response)
                  (resp_headers response)))
/\ decode_body response
   = if Spec.declares_json response then resp_json response
     else match resp_text response with
          | inl e => inl e
          | inr text => inr (JString text)
          end.
Proof.
intros H Hf Hok. apply request_Sent in H as (_ & _ & _ & ->).
rewrite Hf. split.
- intros data Hd. unfold request_try. simpl. rewrite Hd. simpl.
  now rewrite Hok.
- unfold decode_body, Spec.declares_json, text_value.
  destruct (resp_headers response !! "content-type") as [ct|];
    [| reflexivity].
  destruct ct as [|c ct]; [reflexivity |]. reflexivity.
Qed.

End MoreClientFacts.

Section MoreClientExamples.
Import JsString Api Examples.

Lemma request_is_sent_witness :
Spec.reads_token (mkOptions (Some "GET") None None) = false
/\ exists outcome,
    request api_instance
      (Dom.mkDocument None "csrf_token=%") (offline None)
      "/vendors" (mkOptions (Some "GET") None None)
    = Sent "/vendors" get_config outcome.
Proof.
split; [reflexivity |].
destruct (proj2 (request_is_sent_unless_token_reading_throws
                   api_instance
                   (Dom.mkDocument None "csrf_token=%")
                   (offline None) "/vendors"
                   (mkOptions (Some "GET") None None)) eq_refl)
  as [outcome H].
exists outcome. rewrite H. f_equal; evaluate.
Defined.

Lemma success_response_resolves_witness :
request api_instance page_without_token
  (server (json_response 200 "OK" JNull))
  "/vendors" no_options
= Sent "/vendors" plain_config
    (Resolved (mkSuccess JNull 200 json_headers))
/\ decode_body (json_response 200 "OK" JNull) = inr JNull.
Proof.
assert (request api_instance page_without_token
          (server (json_response 200 "OK" JNull))
          "/vendors" no_options
        = Sent "/vendors" plain_config
            (Resolved (mkSuccess JNull 200 json_headers)))
  as Hrun by evaluate.
split; [exact Hrun |].
destruct (success_response_resolves api_instance
            page_without_token
            (server (json_response 200 "OK" JNull))
            "/vendors" no_options "/vendors"
            plain_config
            (Resolved (mkSuccess JNull 200 json_headers))
            (json_response 200 "OK" JNull) Hrun eq_refl eq_refl)
  as [_ Hd].
rewrite Hd. reflexivity.
Defined.

End MoreClientExamples.


(** ** The wrappers of request *)

Section WrapperFacts.
Import JsString Api.
Context {host : Host}.

(** The headers of a request without caller headers whose method makes
  [request] read the token. *)
Lemma mutating_request_headers (this : FinBotAPI) (document : Dom.Document)
(fetch : Transport) (endpoint method : string) (body : option Body)
(url : string) (config : FetchConfig) (outcome : Settlement) :
truthy method && negb (String.eqb method "GET") = true ->
request this document fetch endpoint (mkOptions (Some method) None body)
= Sent url config outcome ->
url = baseURL this ++ endpoint
/\ cfg_method config = Some method
/\ cfg_body config = body
/\ cfg_headers config
   = match Spec.page_token document with
     | Some token => <["X-CSRF-Token" := token]> (defaultHeaders this)
     | None => defaultHeaders this
     end.
Proof.
intros Hm H. apply request_Sent in H as (-> & Hh & -> & _).
split; [reflexivity |]. split; [reflexivity |]. split; [reflexivity |].
simpl. apply request_headers_inr in Hh. rewrite Hh.
unfold Spec.attached_token, Spec.page_token. simpl. rewrite Hm.
rewrite (left_id_L ∅ (∪)).
destruct (getCSRFToken document) as [e|[token|]]; reflexivity.
Qed.

(** X18: [post], [put] and [delete] send to the base URL followed by the
  endpoint, with their method, the client defaults as headers and, when
  the page has a token that is not empty, that token under the CSRF
  header; [get] is always sent, to the endpoint followed by the query
  string when there is one, with the client defaults alone. *)
Theorem wrappers_send (this : FinBotAPI) (document : Dom.Document)
(fetch : Transport) (endpoint text : string) :
let sends (run : RequestRun) (method : string) (body : option Body) :=
  forall url config outcome,
    run = Sent url config outcome ->
    url = baseURL this ++ endpoint
    /\ cfg_method config = Some method
    /\ cfg_body config = body
    /\ cfg_headers config
       = match Spec.page_token document with
         | Some token => <["X-CSRF-Token" := token]> (defaultHeaders this)
         | None => defaultHeaders this
         end in
sends (post this document fetch endpoint text) "POST" (Some (BodyText text))
/\ sends (put this document fetch endpoint text) "PUT"
     (Some (BodyText text))
/\ sends (delete_ this document fetch endpoint) "DELETE" None
/\ exists outcome,
    get this document fetch endpoint text
    = Sent (baseURL this ++ endpoint
            ++ (if truthy text then "?" ++ text else ""))
        (mkConfig "same-origin" (Some "GET") None (defaultHeaders this))
        outcome.
Proof.
intros sends. subst sends. cbv beta.
split; [| split; [| split]].
- intros url config outcome. now apply mutating_request_headers.
- intros url config outcome. now apply mutating_request_headers.
- intros url config outcome. now apply mutating_request_headers.
- unfold get.
  destruct (request_sent_without_token this document fetch
              (if truthy text then endpoint ++ "?" ++ text else endpoint)
              (mkOptions (Some "GET") None None) eq_refl)
    as [outcome H].
  exists outcome. rewrite H. unfold request_config. simpl.
  rewrite (left_id_L ∅ (∪)).
  destruct (truthy text); [reflexivity |]. now rewrite append_empty_r.
Qed.

(** X19: [submitForm] sends to the action of the form, or to the path of
  the page when the form has none, with the method of the form in upper
  case, [POST] when it has none; without the [json] option the body is
  the form data and the request still carries the default content type
  of the client, [application/json]. *)
Theorem submitForm_target_and_content_type (document : Dom.Document)
(pathname : string) (fetch : Transport) (form : Dom.Form) (json : bool)
(url : string) (config : FetchConfig) (outcome : Settlement) :
submitForm document pathname fetch form json = Sent url config outcome ->
url = (if truthy (Dom.form_action form) then Dom.form_action form
       else pathname)
/\ cfg_method config
   = Some (toUpperCase (if truthy (Dom.form_method form)
                        then Dom.form_method form else "POST"))
/\ cfg_headers config !! "Content-Type" = Some "application/json"
/\ (json = false ->
    cfg_body config = Some (BodyFormData (Dom.FormData form))).
Proof.
unfold submitForm. intros H.
apply request_Sent in H as (-> & Hh & -> & _).
split; [reflexivity |]. split; [reflexivity |]. split.
- apply request_headers_inr in Hh. rewrite Hh. simpl.
  assert ((((if json
             then {["Content-Type" := "application/json"]} else ∅)
            : gmap string string)
           ∪ {["Content-Type" := "application/json"]}) !! "Content-Type"
          = Some "application/json") as Hm
      by (destruct json; reflexivity).
  destruct (Spec.attached_token _ _); [| exact Hm].
  rewrite lookup_insert_ne; [exact Hm | discriminate].
- intros ->. reflexivity.
Qed.

(** X20: [download] offers a file only when the request resolves; its
  content is the string form of the decoded data, the text itself for a
  text response and ["[object Object]"] for a decoded object, and its
  name is the file name given, ["download"] when none or an empty one
  is. *)
Theorem download_saves_string_form (this : FinBotAPI)
(document : Dom.Document) (fetch : Transport) (endpoint : string)
(filename : option string) :
let result := download this document fetch endpoint filename in
fst result = get this document fetch endpoint ""
/\ (forall content name,
       snd result = SavedAs content name ->
       exists url config response,
         fst result = Sent url config (Resolved response)
         /\ ToString (success_data response) = Some content
         /\ name = match filename with
                   | Some given => if truthy given then given else "download"
                   | None => "download"
                   end)
/\ (forall url config response,
       fst result = Sent url config (Resolved response) ->
       match success_data response with
       | JString text =>
           exists name, snd result = SavedAs text name
       | JObject props =>
           own_prop "toString" props = None ->
           exists name, snd result = SavedAs "[object Object]" name
       | _ => True
       end).
Proof.
intros result. subst result. unfold download, get. cbn [truthy].
destruct (request this document fetch endpoint
            (mkOptions (Some "GET") None None))
  as [e | url config [response | error]] eqn:E; cbn [fst snd].
- split; [reflexivity |]. split; [discriminate | discriminate].
- destruct (ToString (success_data response)) as [content|] eqn:Ec.
  + split; [reflexivity |]. split.
    * intros c n [= <- <-]. exists url, config, response.
      repeat split; [assumption |].
      unfold or_else. destruct filename as [[|]|]; reflexivity.
    * intros url' config' response' [= <- <- <-]. simpl.
      destruct (success_data response) as [| | | text | |props];
        try exact I.
      -- injection Ec as <-. eauto.
      -- intros Hp. simpl in Ec. rewrite Hp in Ec. injection Ec as <-.
         eauto.
  + split; [reflexivity |]. split; [discriminate |].
    intros url' config' response' [= <- <- <-]. simpl.
    destruct (success_data response) as [| | | text | |props];
      try exact I.
    * discriminate.
    * intros Hp. simpl in Ec. rewrite Hp in Ec. discriminate.
- split; [reflexivity |]. split; discriminate.
Qed.

End WrapperFacts.

Section WrapperExamples.
Import JsString Api Examples.

Lemma submitForm_target_and_content_type_witness :
submitForm page_with_token "/here" (offline None)
  (login_form "bob" "Abcd123!") false
= Sent "/login" multipart_config (network_failure "Network error occurred")
/\ cfg_headers multipart_config !! "Content-Type" = Some "application/json"
/\ cfg_body multipart_config
   = Some (BodyFormData (Dom.FormData (login_form "bob" "Abcd123!"))).
Proof.
assert (submitForm page_with_token "/here" (offline None)
          (login_form "bob" "Abcd123!") false
        = Sent "/login" multipart_config
            (network_failure "Network error occurred")) as Hrun
    by evaluate.
destruct (submitForm_target_and_content_type page_with_token "/here"
            (offline None) (login_form "bob" "Abcd123!") false "/login"
            multipart_config (network_failure "Network error occurred")
            Hrun) as (_ & _ & Hc & Hb).
split; [exact Hrun |]. split; [exact Hc | exact (Hb eq_refl)].
Defined.

Lemma submitForm_json_body_last_value_witness :
submitForm page_with_token "/here" (offline None)
  (login_form "bob" "Abcd123!") true
= Sent "/login" (login_config "bob" "Abcd123!")
    (network_failure "Network error occurred")
/\ exists data,
    cfg_body (login_config "bob" "Abcd123!") = Some (BodyJson data)
    /\ data !! "__proto__" = None
    /\ forall name,
        name <> "__proto__" ->
        data !! name
        = Dom.FormData_get
            (rev (Dom.FormData (login_form "bob" "Abcd123!"))) name.
Proof.
assert (submitForm page_with_token "/here" (offline None)
          (login_form "bob" "Abcd123!") true
        = Sent "/login" (login_config "bob" "Abcd123!")
            (network_failure "Network error occurred")) as Hrun
    by evaluate.
split; [exact Hrun |].
exact (submitForm_json_body_last_value page_with_token "/here"
         (offline None) (login_form "bob" "Abcd123!") "/login"
         (login_config "bob" "Abcd123!")
         (network_failure "Network error occurred") Hrun).
Defined.

End WrapperExamples.


(** ** More on the submit handler and the validation of one field *)

Section HandlerFacts.
Import JsString Utils Api Web.
Context {host : Host}.

Lemma handleAPIError_no_redirect (error : APIError) (showAlert : bool) :
exists message,
  handleAPIError error false showAlert
  = ConsoleError error
    :: (if showAlert then [ShowAlert message "danger"] else []).
Proof.
unfold handleAPIError. rewrite andb_false_r. eauto.
Qed.

Lemma display_action_In (actions : list Action) (action : Action) :
forallb Spec.display_action actions = true ->
In action actions ->
Spec.display_action action = true.
Proof. intros H Hin. now apply (proj1 (forallb_forall _ _) H). Qed.

(** What follows the request neither shows nor removes the loading state,
  and leaves the page only when the request has resolved. *)
Lemma after_submit_actions (querySelector : QuerySelector) (run : RequestRun)
(action : Action) :
In action (fst (after_submit querySelector run)) ->
action <> ShowLoading /\ action <> HideLoading
/\ (forall target,
       action = Navigate target ->
       exists url config response,
         run = Sent url config (Resolved response)).
Proof.
destruct run as [e|url config outcome]; [intros [] |].
cbn [after_submit].
match goal with
| |- context [let (a, e) := ?inner in _] =>
    assert (forall x, In x (fst inner) ->
              x <> ShowLoading /\ x <> HideLoading
              /\ (forall target,
                     x = Navigate target ->
                     exists response, outcome = Resolved response)) as Hi;
    [| destruct inner as [actions escaped]; cbn [fst In] in *;
       intros [<- | Hin];
       [repeat split; discriminate
       | destruct (Hi action Hin) as (H1 & H2 & H3);
         repeat split; try assumption;
         intros target Ht; destruct (H3 target Ht) as [response ->];
         eauto]]
end.
intros x. destruct outcome as [response|error].
- destruct (get_prop (success_data response) "redirect") as [e|[target|]];
    [intros [] | destruct (to_boolean target) |];
    (intros [<- | []]; repeat split; try discriminate; eauto).
- assert (In x (handleAPIError error false true) ->
          x <> ShowLoading /\ x <> HideLoading
          /\ (forall target,
                 x = Navigate target ->
                 exists response, Rejected error = Resolved response))
    as Hh.
  { destruct (handleAPIError_no_redirect error true) as [message ->].
    intros [<- | [<- | []]]; repeat split; discriminate. }
  destruct (get_prop_optional (error_data error) "errors") as [errors|];
    [| exact Hh].
  destruct (isValidationError error && to_boolean errors); [| exact Hh].
  destruct (displayFormErrors_display querySelector errors)
    as (shown & Hf & Hs).
  rewrite Hf. intros Hin.
  pose proof (display_action_In (ClearFormErrors :: shown) x Hs Hin) as Hd.
  destruct x; try discriminate; repeat split; discriminate.
Qed.

(** X21: the handler always prevents the default submission first and
  calls [fetch] at most once.  With a request that settles, once the
  handler has shown the loading state it ends by removing it, whatever
  the outcome of the request, and at most an uncaught exception follows;
  and it leaves the page only after the request has resolved, so that
  an authentication failure does not send the page to the login
  entry. *)
Theorem handleAuthSubmit_restores_once_settled (document : Dom.Document)
(pathname : string) (fetch : Transport) (querySelector : QuerySelector)
(form : Dom.Form) :
let trace := handleAuthSubmit document pathname fetch querySelector form in
(exists rest, trace = PreventDefault :: rest)
/\ (List.length (Spec.fetch_calls trace) <= 1)%nat
/\ (In ShowLoading trace ->
    exists middle tail,
      trace
      = (PreventDefault :: ShowLoading :: middle ++ HideLoading :: tail)%list
      /\ ~ In ShowLoading middle /\ ~ In HideLoading middle
      /\ (tail = [] \/ exists e, tail = [Uncaught e]))
/\ (forall target,
       In (Navigate target) trace ->
       exists url config response,
         submitForm document pathname fetch form true
         = Sent url config (Resolved response)).
Proof.
intros trace. subst trace.
destruct (form_isValid (validateForm form)) eqn:Hv.
- destruct (Dom.form_submit_button form) eqn:Hb.
  + pose proof (valid_form_fetch_calls document pathname fetch
                  querySelector form Hv Hb) as Hc.
    rewrite (handleAuthSubmit_valid _ _ _ _ _ Hv Hb) in *.
    pose proof (after_submit_actions querySelector
                  (submitForm document pathname fetch form true)) as Ha.
    destruct (after_submit querySelector
                (submitForm document pathname fetch form true))
      as [actions escaped]. cbn [fst snd] in *.
    split; [cbn; eauto |]. split.
    { rewrite Hc. destruct (submitForm _ _ _ _ _); cbn; lia. }
    split.
    * intros _. exists actions, (uncaught escaped).
      split; [reflexivity |].
      split; [intros Hin; now destruct (Ha _ Hin) as (H & _) |].
      split; [intros Hin; now destruct (Ha _ Hin) as (_ & H & _) |].
      destruct escaped; cbn; eauto.
    * intros target Hin. cbn [app In] in Hin.
      destruct Hin as [Hin | [Hin | Hin]]; try discriminate.
      apply in_app_or in Hin as [Hin | Hin].
      -- destruct (Ha _ Hin) as (_ & _ & H). now apply (H target).
      -- cbn [app In] in Hin. destruct Hin as [Hin | Hin];
           [discriminate |].
         destruct escaped; cbn in Hin; intuition discriminate.
  + unfold handleAuthSubmit. rewrite Hv, Hb. cbn [negb].
    split; [eauto |]. split; [cbn; lia |]. split.
    * cbn. intuition discriminate.
    * intros target. cbn. intuition discriminate.
- pose proof (no_network_call_when_invalid document pathname fetch
                querySelector form Hv) as Hn.
  rewrite calls_network_fetch_calls in Hn.
  rewrite (handleAuthSubmit_invalid _ _ _ _ _ Hv) in *.
  destruct (displayFormErrors_display querySelector
              (errors_object (form_errors (validateForm form))))
    as (shown & Hf & Hs).
  rewrite Hf in *.
  assert (forall x,
             In x (PreventDefault
                     :: (ClearFormErrors :: shown)
                     ++ uncaught
                          (snd (displayFormErrors querySelector
                                  (errors_object
                                     (form_errors (validateForm form))))))
             -> x <> ShowLoading /\ forall target, x <> Navigate target)
    as Hx.
  { intros x [<- | Hin]; [split; [| intros target]; discriminate |].
    apply in_app_or in Hin as [Hin | Hin].
    - pose proof (display_action_In (ClearFormErrors :: shown) x Hs Hin)
        as Hd.
      destruct x; try discriminate;
        (split; [| intros target]; discriminate).
    - destruct (snd _); cbn in Hin; [| destruct Hin].
      destruct Hin as [<- | []]. split; [| intros target]; discriminate. }
  split; [eauto |]. split.
  { destruct (Spec.fetch_calls _); [cbn; lia | exfalso; now apply Hn]. }
  split.
  + intros Hin. now destruct (Hx _ Hin) as [H _].
  + intros target Hin. destruct (Hx _ Hin) as [_ H]. now destruct (H target).
Qed.

End HandlerFacts.

Section FieldFacts.
Import JsString Utils Web.

(** X22: [validateField] leaves a field without group alone; it takes
  away the first error shown and the error class; a required field
  whose value is blank then gets ["This field is required"]; a field
  that is not required and blank gets nothing; and a group that showed
  at most one error shows at most one, the error class being set
  exactly when it shows one. *)
Theorem validateField_shows_one_error (field : Dom.Field) (value : string)
(group : FieldGroup) (passwordField : option string) :
validateField field value None passwordField = None
/\ (trim value = "" ->
    validateField field value (Some group) passwordField
    = Some (if Dom.field_required field
            then mkFieldGroup
                   (tl (group_errors group) ++ ["This field is required"])
                   true
            else mkFieldGroup (tl (group_errors group)) false))
/\ (exists shown,
       validateField field value (Some group) passwordField
       = Some (mkFieldGroup
                 (tl (group_errors group) ++ shown)
                 (match shown with [] => false | _ => true end))
       /\ (List.length shown <= 1)%nat).
Proof.
split; [reflexivity |]. split.
- intros Ht. unfold validateField. rewrite Ht. simpl.
  destruct (Dom.field_required field); reflexivity.
- unfold validateField.
  set (v := trim value).
  set (cleared := mkFieldGroup (tl (group_errors group)) false).
  destruct (negb (truthy v) && negb (Dom.field_required field)).
  { exists []. simpl. rewrite app_nil_r. auto. }
  match goal with
  | |- context [if truthy ?m then _ else _] => set (msg := m)
  end.
  destruct (truthy msg) eqn:Em.
  + exists [msg]. simpl. auto.
  + exists []. simpl. rewrite app_nil_r. auto.
Qed.

Lemma validateField_shows_one_error_witness :
trim "   " = ""
/\ validateField (Dom.mkField "email" "email" true None None []) "   "
     (Some (mkFieldGroup ["Please enter a valid email address"] true)) None
   = Some (mkFieldGroup ["This field is required"] true).
Proof.
split; [reflexivity |].
exact (proj1 (proj2 (validateField_shows_one_error
                       (Dom.mkField "email" "email" true None None [])
                       "   "
                       (mkFieldGroup
                          ["Please enter a valid email address"] true)
                       None)) eq_refl).
Defined.

(** X23: a field of type [password] with a value is checked for strength
  and never compared with the password field, whatever its name; its
  error, when it has one, is the message of the first rule it fails. *)
Theorem validateField_password_is_not_compared (field : Dom.Field)
(value : string) (group : FieldGroup) (password password' : option string) :
Dom.field_type field = "password" ->
trim value <> "" ->
validateField field value (Some group) password
= validateField field value (Some group) password'
/\ validateField field value (Some group) password
   = Some (match Spec.failed (trim value) with
           | rule :: _ :: _ =>
               mkFieldGroup (tl (group_errors group) ++ [snd rule]) true
           | _ => mkFieldGroup (tl (group_errors group)) false
           end).
Proof.
intros Ht Hv. apply truthy_nonempty in Hv.
unfold validateField. rewrite Ht, Hv.
split; [reflexivity |].
unfold validatePassword, Spec.failed, Spec.password_rules.
rewrite !test_Class, Nat.ltb_antisym.
cbn [List.filter fst snd].
destruct (Dom.field_required field),
  (8 <=? String.length (trim value))%nat,
  (Spec.contains is_lower (trim value)),
  (Spec.contains is_upper (trim value)),
  (Spec.contains is_digit (trim value)),
  (Spec.contains is_symbol (trim value));
  reflexivity.
Qed.

End FieldFacts.


(** ** Cookies *)

Section CookieFacts.
Import JsString Spec.

Lemma of_chars_chars (s : string) : of_chars (chars s) = s.
Proof. induction s as [|c s IH]; simpl; [reflexivity | now rewrite IH]. Qed.

Lemma chars_inj (s t : string) : chars s = chars t -> s = t.
Proof.
intros H. rewrite <- (of_chars_chars s), <- (of_chars_chars t).
now rewrite H.
Qed.

Lemma chars_rev_app (s t : string) :
chars (String.rev_app s t) = (List.rev (chars s) ++ chars t)%list.
Proof.
revert t. induction s as [|c s IH]; intros t; simpl; [reflexivity |].
rewrite IH. simpl. now rewrite <- app_assoc.
Qed.

Lemma chars_rev (s : string) : chars (String.rev s) = List.rev (chars s).
Proof. unfold String.rev. rewrite chars_rev_app. simpl. apply app_nil_r. Qed.

Lemma string_rev_involutive (s : string) : String.rev (String.rev s) = s.
Proof. apply chars_inj. now rewrite !chars_rev, rev_involutive. Qed.

Lemma string_rev_append (a b : string) :
String.rev (a ++ b) = String.rev b ++ String.rev a.
Proof.
apply chars_inj.
now rewrite chars_rev, !chars_append, !chars_rev, rev_app_distr.
Qed.

Lemma all_in_append (p : ascii -> bool) (a b : string) :
all_in p (a ++ b) <-> all_in p a /\ all_in p b.
Proof. unfold all_in. rewrite chars_append. apply Forall_app. Qed.

Lemma all_in_weaken (p q : ascii -> bool) (s : string) :
(forall c, p c = true -> q c = true) -> all_in p s -> all_in q s.
Proof.
unfold all_in. intros H Hs. eapply List.Forall_impl; [exact H | exact Hs].
Qed.

Lemma drop_space_none (s : string) :
all_in (fun c => negb (is_space c)) s -> drop_space s = s.
Proof.
destruct s as [|c s]; [reflexivity |]. intros H.
inversion H as [|? ? Hc _]; subst. simpl.
now apply negb_true_iff in Hc as ->.
Qed.

(** A string without white space is its own trimming. *)
Lemma trim_none (s : string) :
all_in (fun c => negb (is_space c)) s -> trim s = s.
Proof.
intros H. unfold trim. rewrite (drop_space_none s H).
rewrite drop_space_none; [apply string_rev_involutive |].
unfold all_in in *. rewrite chars_rev. now apply Forall_rev.
Qed.

Lemma trim_after_space (s : string) : trim (String " " s) = trim s.
Proof. reflexivity. Qed.

Lemma split_nonempty (sep : ascii) (s : string) :
exists piece rest, split sep s = piece :: rest.
Proof.
induction s as [|c s (piece & rest & IH)]; simpl; [eauto |].
destruct (Ascii.eqb c sep); [eauto |]. rewrite IH. eauto.
Qed.

Lemma split_prefix (sep : ascii) (a b : string) :
all_in (fun c => negb (Ascii.eqb c sep)) a ->
split sep (a ++ String sep b) = a :: split sep b.
Proof.
induction a as [|c a IH]; intros H; simpl.
- now rewrite Ascii.eqb_refl.
- inversion H as [|? ? Hc Ha]; subst.
  apply negb_true_iff in Hc. rewrite Hc, (IH Ha). reflexivity.
Qed.

Lemma split_whole (sep : ascii) (a : string) :
all_in (fun c => negb (Ascii.eqb c sep)) a -> split sep a = [a].
Proof.
induction a as [|c a IH]; intros H; simpl; [reflexivity |].
inversion H as [|? ? Hc Ha]; subst.
apply negb_true_iff in Hc. rewrite Hc, (IH Ha). reflexivity.
Qed.

Lemma split_after_space (s : string) :
exists piece rest,
  split ";" s = piece :: rest
  /\ split ";" (String " " s) = String " " piece :: rest.
Proof.
destruct (split_nonempty ";" s) as (piece & rest & H).
exists piece, rest. split; [assumption |]. simpl. now rewrite H.
Qed.

Lemma cookie_row_plain (cookie : string * string) :
all_in name_char (fst cookie) -> all_in value_char (snd cookie) ->
all_in (fun c => negb (is_space c)) (cookie_row cookie)
/\ all_in (fun c => negb (Ascii.eqb c ";")) (cookie_row cookie)
/\ all_in (fun c => negb (Ascii.eqb c "=")) (fst cookie).
Proof.
intros Hn Hv. unfold cookie_row.
assert (forall c, name_char c = true ->
                  negb (is_space c) = true
                  /\ negb (Ascii.eqb c ";") = true
                  /\ negb (Ascii.eqb c "=") = true) as Hname.
{ intros c. unfold name_char. rewrite !andb_true_iff. tauto. }
assert (forall c, value_char c = true ->
                  negb (is_space c) = true
                  /\ negb (Ascii.eqb c ";") = true) as Hvalue.
{ intros c. unfold value_char. rewrite !andb_true_iff. tauto. }
repeat split.
- rewrite !all_in_append. repeat split.
  + eapply all_in_weaken; [| exact Hn]. intros c Hc. apply Hname, Hc.
  + repeat constructor.
  + eapply all_in_weaken; [| exact Hv]. intros c Hc. apply Hvalue, Hc.
- rewrite !all_in_append. repeat split.
  + eapply all_in_weaken; [| exact Hn]. intros c Hc. apply Hname, Hc.
  + repeat constructor.
  + eapply all_in_weaken; [| exact Hv]. intros c Hc. apply Hvalue, Hc.
- eapply all_in_weaken; [| exact Hn]. intros c Hc. apply Hname, Hc.
Qed.

Lemma split_cookie_row (cookie : string * string) :
all_in (fun c => negb (Ascii.eqb c "=")) (fst cookie) ->
split "=" (cookie_row cookie) = fst cookie :: split "=" (snd cookie).
Proof. intros H. unfold cookie_row. now apply split_prefix. Qed.

End CookieFacts.

Section TokenFacts.
Import JsString Api Spec.
Context {host : Host}.

Lemma csrf_from_cookies_row (cookie : string * string) (rows : list string) :
all_in name_char (fst cookie) -> all_in value_char (snd cookie) ->
csrf_from_cookies (cookie_row cookie :: rows)
= if String.eqb (fst cookie) "csrf_token"
  then decoded (up_to_equals (snd cookie))
  else csrf_from_cookies rows.
Proof.
intros Hn Hv.
destruct (cookie_row_plain cookie Hn Hv) as (Hs & _ & He).
cbn [csrf_from_cookies]. rewrite (trim_none _ Hs), (split_cookie_row _ He).
destruct (String.eqb (fst cookie) "csrf_token"); [| reflexivity].
unfold decoded, up_to_equals.
destruct (split_nonempty "=" (snd cookie)) as (piece & rest & ->).
reflexivity.
Qed.

Lemma csrf_from_cookies_space (s : string) :
csrf_from_cookies (split ";" (String " " s))
= csrf_from_cookies (split ";" s).
Proof.
destruct (split_after_space s) as (piece & rest & -> & ->).
cbn [csrf_from_cookies]. now rewrite trim_after_space.
Qed.

Lemma csrf_from_cookie_string (cookies : list (string * string)) :
well_formed cookies ->
csrf_from_cookies (split ";" (cookie_string cookies))
= match first_cookie "csrf_token" cookies with
  | Some value => decoded (up_to_equals value)
  | None => inr None
  end.
Proof.
induction cookies as [|[n v] cookies IH]; intros Hw; [reflexivity |].
inversion Hw as [|? ? [Hn Hv] Hrest]; subst. simpl in Hn, Hv.
destruct (cookie_row_plain (n, v) Hn Hv) as (_ & Hsemi & _).
simpl first_cookie. destruct cookies as [|next cookies].
- cbn [cookie_string]. rewrite (split_whole _ _ Hsemi).
  rewrite (csrf_from_cookies_row (n, v) [] Hn Hv). simpl.
  now destruct (String.eqb n "csrf_token").
- change (cookie_string ((n, v) :: next :: cookies))
    with (cookie_row (n, v)
          ++ String ";" (String " " (cookie_string (next :: cookies)))).
  rewrite (split_prefix _ _ _ Hsemi).
  rewrite (csrf_from_cookies_row (n, v) _ Hn Hv). simpl fst.
  destruct (String.eqb n "csrf_token"); [reflexivity |].
  rewrite csrf_from_cookies_space. now apply IH.
Qed.

(** X24: [getCSRFToken] answers with the [content] of the meta tag when
  the page has one, even when the tag has no content, and reads the
  cookies only otherwise; among well-formed cookies it takes the first
  one named [csrf_token], reads its value up to the first equals sign
  and decodes it; without such a cookie it answers [null]. *)
Theorem getCSRFToken_meta_then_cookie (cookies : list (string * string))
(content : option string) (cookie : string) :
getCSRFToken (Dom.mkDocument (Some content) cookie) = inr content
/\ (well_formed cookies ->
    getCSRFToken (Dom.mkDocument None (cookie_string cookies))
    = match first_cookie "csrf_token" cookies with
      | Some value =>
          match decodeURIComponent (up_to_equals value) with
          | Some token => inr (Some token)
          | None => inl (URIError "URI malformed")
          end
      | None => inr None
      end).
Proof.
split; [reflexivity |]. intros Hw. unfold getCSRFToken. simpl.
now rewrite (csrf_from_cookie_string cookies Hw).
Qed.

End TokenFacts.

Section TokenExamples.
Import JsString Api Spec Examples.

Lemma getCSRFToken_meta_then_cookie_witness :
well_formed session_cookies
/\ getCSRFToken (Dom.mkDocument None (cookie_string session_cookies))
   = inr (Some "dG9rZW4").
Proof.
assert (well_formed session_cookies) as Hw
    by (repeat constructor).
split; [exact Hw |].
rewrite (proj2 (getCSRFToken_meta_then_cookie session_cookies None "") Hw).
reflexivity.
Defined.

End TokenExamples.


(** ** The agreement gate *)

Section AgreementFacts.
Import JsString Spec Agreement.

Lemma starts_with_prefix (p s : string) :
starts_with p s = true <-> exists w, s = p ++ w.
Proof.
revert s. induction p as [|a p IH]; intros s; simpl.
- split; eauto.
- destruct s as [|b s].
  + split; [discriminate | intros [w H]; discriminate].
  + rewrite andb_true_iff, Ascii.eqb_eq, IH. split.
    * intros [-> [w ->]]. eauto.
    * intros [w [= -> ->]]. eauto.
Qed.

Lemma ends_with_suffix (s p : string) :
ends_with s p = true <-> exists pre, s = pre ++ p.
Proof.
unfold ends_with. rewrite starts_with_prefix. split.
- intros [w H]. exists (String.rev w).
  apply (f_equal String.rev) in H.
  now rewrite string_rev_involutive, string_rev_append,
    string_rev_involutive in H.
- intros [pre ->]. exists (String.rev pre). apply string_rev_append.
Qed.

Lemma starts_with_name (q n v : string) :
all_in (fun c => negb (Ascii.eqb c "=")) q ->
all_in (fun c => negb (Ascii.eqb c "=")) n ->
starts_with (q ++ String "=" "") (n ++ String "=" v) = String.eqb n q.
Proof.
revert n. induction q as [|a q IH]; intros n Hq Hn.
- destruct n as [|c n]; [reflexivity |].
  inversion Hn as [|? ? Hc _]; subst.
  cbn [starts_with String.append String.eqb].
  apply negb_true_iff in Hc. rewrite Ascii.eqb_sym. now rewrite Hc.
- inversion Hq as [|? ? Ha Hq']; subst.
  destruct n as [|c n].
  + cbn [starts_with String.append String.eqb].
    apply negb_true_iff in Ha. now rewrite Ha.
  + inversion Hn as [|? ? Hc Hn']; subst.
    cbn [starts_with String.append String.eqb].
    rewrite (IH n Hq' Hn'), Ascii.eqb_sym.
    now destruct (Ascii.eqb c a).
Qed.

Lemma split_on_prefix (a b : string) :
all_in (fun c => negb (Ascii.eqb c ";")) a ->
split_on "; " (a ++ "; " ++ b) = a :: split_on "; " b.
Proof.
unfold split_on. induction a as [|c a IH]; intros H; [reflexivity |].
inversion H as [|? ? Hc Ha]; subst.
apply negb_true_iff in Hc.
cbn [split_on_go starts_with String.append].
rewrite Ascii.eqb_sym, Hc. cbn [andb].
change (split_on_go "; " 0 (a ++ String ";" (String " " b)))
  with (split_on_go "; " 0 (a ++ "; " ++ b)).
now rewrite (IH Ha).
Qed.

Lemma split_on_whole (a : string) :
all_in (fun c => negb (Ascii.eqb c ";")) a -> split_on "; " a = [a].
Proof.
unfold split_on. induction a as [|c a IH]; intros H; [reflexivity |].
inversion H as [|? ? Hc Ha]; subst.
apply negb_true_iff in Hc.
cbn [split_on_go starts_with String.append].
rewrite Ascii.eqb_sym, Hc. cbn [andb]. now rewrite (IH Ha).
Qed.

(** The rows of [document.cookie] are the cookies. *)
Lemma split_on_cookie_string (cookie : string * string)
(cookies : list (string * string)) :
well_formed (cookie :: cookies) ->
split_on "; " (cookie_string (cookie :: cookies))
= map cookie_row (cookie :: cookies).
Proof.
revert cookie. induction cookies as [|next cookies IH]; intros cookie Hw;
  inversion Hw as [|? ? [Hn Hv] Hrest]; subst;
  destruct (cookie_row_plain cookie Hn Hv) as (_ & Hsemi & _).
- simpl. now apply split_on_whole.
- change (cookie_string (cookie :: next :: cookies))
    with (cookie_row cookie ++ "; " ++ cookie_string (next :: cookies)).
  rewrite (split_on_prefix _ _ Hsemi), (IH next Hrest). reflexivity.
Qed.

Lemma find_row_cookies (cookies : list (string * string)) :
well_formed cookies ->
match find_row "agreedToRules=" (map cookie_row cookies) with
| Some row =>
    exists value,
      first_cookie "agreedToRules" cookies = Some value
      /\ split "=" row = "agreedToRules" :: split "=" value
| None => first_cookie "agreedToRules" cookies = None
end.
Proof.
induction cookies as [|[n v] cookies IH]; intros Hw; [reflexivity |].
inversion Hw as [|? ? [Hn Hv] Hrest]; subst. simpl in Hn, Hv.
destruct (cookie_row_plain (n, v) Hn Hv) as (_ & _ & He). simpl in He.
cbn [map find_row first_cookie].
unfold cookie_row at 1. cbn [fst snd].
change (starts_with "agreedToRules=" (n ++ "=" ++ v))
  with (starts_with ("agreedToRules" ++ String "=" "") (n ++ String "=" v)).
rewrite (starts_with_name "agreedToRules" n v) by
  (try assumption; repeat constructor).
destruct (String.eqb n "agreedToRules") eqn:E.
- apply String.eqb_eq in E as ->. exists v. split; [reflexivity |].
  now apply (split_cookie_row ("agreedToRules", v)).
- now apply IH.
Qed.

(** X25: a page is exempt from the agreement check exactly when its path
  ends in [/agreement]; the user has agreed when the stored value is
  [yes] or when the first cookie named [agreedToRules], read up to its
  first equals sign, is [yes]; and the page is sent to the agreement
  exactly when it is not exempt and the user has not agreed. *)
Theorem agreement_gate (pathname : string) (stored : option string)
(cookie : string) (cookies : list (string * string)) :
(isExemptPage pathname = true <->
 exists before, pathname = before ++ "/agreement")
/\ (well_formed cookies ->
    hasUserAgreed stored (cookie_string cookies)
    = match stored with
      | Some value => String.eqb value "yes"
      | None => false
      end
      || match first_cookie "agreedToRules" cookies with
         | Some value => String.eqb (up_to_equals value) "yes"
         | None => false
         end)
/\ (checkAgreement pathname stored cookie = true <->
    isExemptPage pathname = false /\ hasUserAgreed stored cookie = false).
Proof.
split; [| split].
- unfold isExemptPage, exemptPages. cbn [existsb].
  rewrite orb_false_r, orb_true_iff, ends_with_suffix, String.eqb_eq.
  split; [| now left]. intros [H | ->]; [assumption |]. now exists "".
- intros Hw. unfold hasUserAgreed. f_equal.
  destruct cookies as [|first rest]; [reflexivity |].
  rewrite (split_on_cookie_string first rest Hw).
  pose proof (find_row_cookies (first :: rest) Hw) as H.
  destruct (find_row "agreedToRules=" (map cookie_row (first :: rest)))
    as [row|].
  + destruct H as (value & -> & ->). unfold up_to_equals.
    destruct (split_nonempty "=" value) as (piece & more & ->).
    reflexivity.
  + now rewrite H.
- unfold checkAgreement.
  destruct (isExemptPage pathname), (hasUserAgreed stored cookie);
    simpl; intuition congruence.
Qed.

End AgreementFacts.

Section AgreementExamples.
Import JsString Spec Agreement Examples.

Lemma agreement_gate_witness :
well_formed agreed_cookies
/\ hasUserAgreed None (cookie_string agreed_cookies) = true.
Proof.
assert (well_formed agreed_cookies) as Hw by (repeat constructor).
split; [exact Hw |].
rewrite (proj1 (proj2 (agreement_gate "/" None "" agreed_cookies)) Hw).
reflexivity.
Defined.

End AgreementExamples.


(** ** Further concrete runs *)

Section FurtherRuns.
Import JsString Utils Api Web Examples.

Lemma validateField_password_is_not_compared_witness :
Dom.field_type confirm_field = "password"
/\ trim "abc" <> ""
/\ validateField confirm_field "abc" (Some (mkFieldGroup [] false))
     (Some "Abcd123!")
   = validateField confirm_field "abc" (Some (mkFieldGroup [] false)) None.
Proof.
assert (trim "abc" <> "") as Hv by discriminate.
split; [reflexivity |]. split; [exact Hv |].
exact (proj1 (validateField_password_is_not_compared confirm_field "abc"
                (mkFieldGroup [] false) (Some "Abcd123!") None
                eq_refl Hv)).
Defined.

Lemma wrappers_send_witness :
post api page_with_token (offline None) "/vendors" "{}"
= Sent "/vendors" post_config (network_failure "Network error occurred")
/\ cfg_headers post_config
   = <["X-CSRF-Token" := "page-token"]> (defaultHeaders api).
Proof.
assert (post api page_with_token (offline None) "/vendors" "{}"
        = Sent "/vendors" post_config
            (network_failure "Network error occurred")) as Hrun
    by evaluate.
split; [exact Hrun |].
destruct (proj1 (wrappers_send api page_with_token (offline None)
                   "/vendors" "{}")
            "/vendors" post_config
            (network_failure "Network error occurred") Hrun)
  as (_ & _ & _ & Hh).
rewrite Hh. evaluate.
Defined.

Lemma download_saves_string_form_witness :
snd (download api page_without_token
       (server (json_response 200 "OK" no_vendor_body)) "/export" None)
= SavedAs "[object Object]" "download"
/\ exists url config response,
    fst (download api page_without_token
           (server (json_response 200 "OK" no_vendor_body)) "/export" None)
    = Sent url config (Resolved response)
    /\ ToString (success_data response) = Some "[object Object]".
Proof.
assert (snd (download api page_without_token
               (server (json_response 200 "OK" no_vendor_body))
               "/export" None)
        = SavedAs "[object Object]" "download") as Hs by evaluate.
split; [exact Hs |].
destruct (proj1 (proj2 (download_saves_string_form api page_without_token
                          (server (json_response 200 "OK" no_vendor_body))
                          "/export" None))
            "[object Object]" "download" Hs)
  as (url & config & response & Hr & Ht & _).
eauto.
Defined.

(** A login refused with status 401: the loading state is shown and
  removed, one request is made and the page stays. *)
Lemma handleAuthSubmit_restores_once_settled_witness :
In ShowLoading
  (handleAuthSubmit page_with_token "/here"
     (server (json_response 401 "Unauthorized" no_vendor_body))
     login_page (login_form "bob" "Abcd123!"))
/\ exists middle tail,
    handleAuthSubmit page_with_token "/here"
      (server (json_response 401 "Unauthorized" no_vendor_body))
      login_page (login_form "bob" "Abcd123!")
    = (PreventDefault :: ShowLoading :: middle ++ HideLoading :: tail)%list
    /\ ~ In ShowLoading middle /\ ~ In HideLoading middle
    /\ (tail = [] \/ exists e, tail = [Uncaught e]).
Proof.
assert (In ShowLoading
          (handleAuthSubmit page_with_token "/here"
             (server (json_response 401 "Unauthorized" no_vendor_body))
             login_page (login_form "bob" "Abcd123!"))) as Hin
    by (vm_compute; right; now left).
split; [exact Hin |].
exact (proj1 (proj2 (proj2
         (handleAuthSubmit_restores_once_settled page_with_token "/here"
            (server (json_response 401 "Unauthorized" no_vendor_body))
            login_page (login_form "bob" "Abcd123!")))) Hin).
Defined.

End FurtherRuns.
